(** * Threat-Intelligence-Center: the fetch / detect / classify pipeline

    A shallow embedding of [pro-test.py]: the multi-source aggregator
    [fetch_all_news], the lexicon scan [detect_harmful_words], the
    classifier client [fetch_from_gemini_sentiment_intent] and the
    categorizer [full_categorize], followed by the properties the
    specification states about them.

    Conventions of the embedding.
    - In the pipeline a Python [str] is a [string]; a character is a code
      point below 256 (Latin-1), which covers every literal of the
      program.  The character tables of [Char] ([\w], [str.lower],
      [str.strip]) are Python 3's, restricted to that range, where two
      characters match under [re.IGNORECASE] exactly when [str.lower]
      makes them equal.
    - The lexicon scan is also modelled on text of any code points, in
      [Unicode]: there a text is a list of code points, and the tables
      of [Char] are extended beyond 255.  What is stated of every text is
      stated there.
    - A value decoded from JSON is a [json]; Python's [None] is [JNull].
    - A raised exception is the [Raise] outcome of [res].
    - The network and the language model are oracles, indexed by the
      number of the call, so that two equal requests may be answered
      differently.
    - [print] is a trace of [event]s.  The constant request headers and
      the timeout of [requests.get] are part of the network oracle.
    - The article dictionaries that [full_categorize] updates in place live
      in a store (a function from references to dictionaries). *)

From Stdlib Require Import ZArith NArith String Ascii List Bool Lia.
From Stdlib Require Import SpecFloat DecimalString.
From stdpp Require Import gmap strings list.

Open Scope string_scope.

(** ** Characters *)

Module Char.

Definition code (c : ascii) : N := N_of_ascii c.

Definition in_range (lo hi : N) (c : ascii) : bool :=
  ((lo <=? code c) && (code c <=? hi))%N.

(** The class [[a-zA-Z0-9]] of the label patterns. *)
Definition is_ascii_alnum (c : ascii) : bool :=
  in_range 97 122 c || in_range 65 90 c || in_range 48 57 c.

(** [\w] on a [str] pattern, for a code point below 256: the
    alphanumeric ones and the underscore.  [Unicode.is_word] is the class
    on all code points. *)
Definition is_word (c : ascii) : bool :=
  is_ascii_alnum c || (code c =? 95)%N
  || (code c =? 170)%N || in_range 178 179 c || (code c =? 181)%N
  || in_range 185 186 c || in_range 188 190 c
  || in_range 192 214 c || in_range 216 246 c || in_range 248 255 c.

(** [str.lower] on one character. *)
Definition lower (c : ascii) : ascii :=
  if in_range 65 90 c || (in_range 192 222 c && negb (code c =? 215)%N)
  then ascii_of_N (code c + 32) else c.

(** The characters [str.strip] removes. *)
Definition is_space (c : ascii) : bool :=
  in_range 9 13 c || in_range 28 32 c || (code c =? 133)%N || (code c =? 160)%N.

(** Two characters below 256 match under [re.IGNORECASE].
    [Unicode.eq_ignorecase] matches a character of a pattern against any
    code point. *)
Definition eq_ignorecase (a b : ascii) : bool :=
  Ascii.eqb (lower a) (lower b).

Definition newline : ascii := ascii_of_N 10.

End Char.

(** ** Strings *)

Module Str.

Definition is_empty (s : string) : bool :=
  match s with EmptyString => true | String _ _ => false end.

Definition head (s : string) : option ascii :=
  match s with EmptyString => None | String c _ => Some c end.

(** [s.lower()] *)
Fixpoint lower (s : string) : string :=
  match s with
  | EmptyString => EmptyString
  | String c t => String (Char.lower c) (lower t)
  end.

(** [s.startswith(p)], returning what follows the prefix. *)
Fixpoint strip_prefix (p s : string) : option string :=
  match p with
  | EmptyString => Some s
  | String a p' =>
      match s with
      | EmptyString => None
      | String b s' => if Ascii.eqb a b then strip_prefix p' s' else None
      end
  end.

Definition startswith (s p : string) : bool :=
  match strip_prefix p s with Some _ => true | None => false end.

(** [w in s] *)
Fixpoint contains (w s : string) : bool :=
  startswith s w ||
  match s with
  | EmptyString => false
  | String _ t => contains w t
  end.

Fixpoint lstrip (s : string) : string :=
  match s with
  | EmptyString => EmptyString
  | String c t => if Char.is_space c then lstrip t else s
  end.

Fixpoint rstrip (s : string) : string :=
  match s with
  | EmptyString => EmptyString
  | String c t =>
      let t' := rstrip t in
      if Char.is_space c && is_empty t' then EmptyString else String c t'
  end.

(** [s.strip()] *)
Definition strip (s : string) : string := rstrip (lstrip s).

(** [sep.join(l)] *)
Fixpoint join (sep : string) (l : list string) : string :=
  match l with
  | [] => EmptyString
  | [x] => x
  | x :: rest => x ++ sep ++ join sep rest
  end.

(** [str(n)] for an [int]. *)
Definition of_Z (z : Z) : string := NilZero.string_of_int (Z.to_int z).

End Str.

(** ** The four regular expressions of the program *)

Module Re.

(** *** [re.sub] of the lazy tag pattern (['<'], any characters, ['>']) by
    the empty string

    At a ['<'] the lazy [.*?] stops at the first ['>'] that follows on the
    same line ([.] does not match a newline); the span is removed and the
    scan resumes behind it.  A ['<'] with no such ['>'] is kept. *)

Fixpoint after_close (s : string) : option string :=
  match s with
  | EmptyString => None
  | String c t =>
      if Ascii.eqb c ">" then Some t
      else if Ascii.eqb c Char.newline then None
      else after_close t
  end.

Fixpoint sub_tags_fuel (fuel : nat) (s : string) : string :=
  match fuel with
  | O => s
  | S fuel' =>
      match s with
      | EmptyString => EmptyString
      | String c t =>
          if Ascii.eqb c "<" then
            match after_close t with
            | Some rest => sub_tags_fuel fuel' rest
            | None => String c (sub_tags_fuel fuel' t)
            end
          else String c (sub_tags_fuel fuel' t)
      end
  end.

(** One unit of fuel per character is enough: every step consumes one. *)
Definition sub_tags (s : string) : string :=
  sub_tags_fuel (String.length s) s.

(** *** [re.search(r'\b{}\b'.format(re.escape(word)), text, re.IGNORECASE)]

    [re.escape] makes every character of the word a literal, so the
    pattern is: a word boundary, the word letter by letter up to case, a
    word boundary. *)

Definition is_word_opt (c : option ascii) : bool :=
  match c with Some c => Char.is_word c | None => false end.

(** [\b] between the character before and the character after. *)
Definition boundary (before after : option ascii) : bool :=
  xorb (is_word_opt before) (is_word_opt after).

(** Matches the literal [w] at the head of [text] up to case; returns the
    last character before the end of the match and the rest of the text. *)
Fixpoint literal_ignorecase (before : option ascii) (w text : string)
  : option (option ascii * string) :=
  match w with
  | EmptyString => Some (before, text)
  | String a w' =>
      match text with
      | EmptyString => None
      | String b text' =>
          if Char.eq_ignorecase a b
          then literal_ignorecase (Some b) w' text'
          else None
      end
  end.

Definition word_at (before : option ascii) (w text : string) : bool :=
  boundary before (Str.head text) &&
  match literal_ignorecase before w text with
  | Some (last, rest) => boundary last (Str.head rest)
  | None => false
  end.

Fixpoint search_word_from (before : option ascii) (w text : string) : bool :=
  word_at before w text ||
  match text with
  | EmptyString => false
  | String c t => search_word_from (Some c) w t
  end.

Definition search_word (w text : string) : bool :=
  search_word_from None w text.

(** *** The label patterns: a literal key (["SENTIMENT="] or ["INTENT="])
    followed by one group of one or more characters of [[a-zA-Z0-9]], as
    many as possible; [re.search] takes the leftmost match. *)

Fixpoint take_alnum (s : string) : string :=
  match s with
  | EmptyString => EmptyString
  | String c t => if Char.is_ascii_alnum c then String c (take_alnum t) else EmptyString
  end.

Definition label_at (key s : string) : option string :=
  match Str.strip_prefix key s with
  | Some rest =>
      let run := take_alnum rest in
      if Str.is_empty run then None else Some run
  | None => None
  end.

Fixpoint search_label (key s : string) : option string :=
  match label_at key s with
  | Some run => Some run
  | None =>
      match s with
      | EmptyString => None
      | String _ t => search_label key t
      end
  end.

(** *** The reason pattern: the literal [REASON=] followed by one group
    of any characters but a newline, as many as possible: the rest of the
    line. *)

Fixpoint take_line (s : string) : string :=
  match s with
  | EmptyString => EmptyString
  | String c t => if Ascii.eqb c Char.newline then EmptyString else String c (take_line t)
  end.

Fixpoint search_rest_of_line (key s : string) : option string :=
  match Str.strip_prefix key s with
  | Some rest => Some (take_line rest)
  | None =>
      match s with
      | EmptyString => None
      | String _ t => search_rest_of_line key t
      end
  end.

End Re.

(** ** Python values and exceptions *)

(** What [resp.json()] can return, and what the fields of an article
    hold: [None], a [bool], an [int], a [float], a [str], a [list] or a
    [dict] with string keys. *)
#[warnings="-register-all"]
Inductive json : Type :=
| JNull
| JBool (b : bool)
| JInt (n : Z)
| JFloat (f : spec_float)
| JStr (s : string)
| JArr (items : list json)
| JObj (fields : list (string * json)).

Inductive exn : Type := AttributeError | TypeError.

Inductive res (A : Type) : Type :=
| Ok (a : A)
| Raise (e : exn).
Arguments Ok {A} a.
Arguments Raise {A} e.

#[global] Instance res_ret : MRet res := fun A a => Ok a.
#[global] Instance res_bind : MBind res := fun A B f m =>
  match m with
  | Ok a => f a
  | Raise e => Raise e
  end.

(** A loop body run over a list, stopping at the first exception. *)
Fixpoint traverse {A B : Type} (f : A -> res B) (l : list A) : res (list B) :=
  match l with
  | [] => Ok []
  | x :: rest =>
      y ← f x;
      ys ← traverse f rest;
      Ok (y :: ys)
  end.

Module Py.

(** [bool(v)] *)
Definition truthy (v : json) : bool :=
  match v with
  | JNull => false
  | JBool b => b
  | JInt n => negb (n =? 0)%Z
  | JFloat (S754_zero _) => false
  | JFloat _ => true
  | JStr s => negb (Str.is_empty s)
  | JArr items => match items with [] => false | _ => true end
  | JObj fields => match fields with [] => false | _ => true end
  end.

(** [a or b] *)
Definition or (a b : json) : json := if truthy a then a else b.

(** A dictionary is the list of its items, with distinct keys; a key is
    looked up from the front. *)
Fixpoint lookup (key : string) (fields : list (string * json)) : option json :=
  match fields with
  | [] => None
  | (k, v) :: rest => if String.eqb k key then Some v else lookup key rest
  end.

(** [v.get(key, dflt)]: only a dictionary has the method. *)
Definition get (v : json) (key : string) (dflt : json) : res json :=
  match v with
  | JObj fields => Ok (default dflt (lookup key fields))
  | _ => Raise AttributeError
  end.

Fixpoint chars (s : string) : list json :=
  match s with
  | EmptyString => []
  | String c t => JStr (String c EmptyString) :: chars t
  end.

(** [for item in v]: a list gives its items, a string its characters, a
    dictionary its keys; nothing else can be iterated. *)
Definition iter (v : json) : res (list json) :=
  match v with
  | JArr items => Ok items
  | JStr s => Ok (chars s)
  | JObj fields => Ok (map (fun kv => JStr (fst kv)) fields)
  | _ => Raise TypeError
  end.

(** [v != s] for a string literal [s]. *)
Definition differs_from (v : json) (s : string) : bool :=
  match v with
  | JStr s' => negb (String.eqb s' s)
  | _ => true
  end.

Section Printing.
(** [repr] of a float, a list or a dictionary is left to the runtime. *)
Variable repr_of : json -> string.

(** [str(v)], also what an f-string inserts. *)
Definition str (v : json) : string :=
  match v with
  | JStr s => s
  | JNull => "None"
  | JBool true => "True"
  | JBool false => "False"
  | JInt n => Str.of_Z n
  | _ => repr_of v
  end.
End Printing.

(** [api.get("api_key")] as a request parameter. *)
Definition of_option (o : option string) : json :=
  match o with Some s => JStr s | None => JNull end.

End Py.

(** ** Data model *)

(** One entry of [API_CONFIGS]; a key the dictionary lacks is [None]. *)
Module Api.
Record config : Type := Config {
  name : option string;
  type : option string;
  base_url : option string;
  api_key : option string
}.

(** [api_type == s], where [api_type] is [api.get("type")]. *)
Definition has_type (api_type : option string) (s : string) : bool :=
  match api_type with
  | Some t => String.eqb t s
  | None => false
  end.
End Api.

(** The keys [full_categorize] adds to an article. *)
Record enrichment : Type := Enrichment {
  harmful : bool;
  harmful_words : list string;
  gemini_sentiment : string;
  gemini_intent : string;
  gemini_reason : string;
  gemini_raw : string
}.

(** An article dictionary; [enriched] is [None] until [full_categorize] has
    set its six keys. *)
Record article : Type := Article {
  source : json;
  title : json;
  description : json;
  link : json;
  pub_date : json;
  keywords : json;
  api_type : string;
  enriched : option enrichment
}.

Definition HARMFUL_KEYWORDS : list string :=
  ["scam"; "fraud"; "bomb"; "attack"; "terror"; "hack"; "threat";
   "arrested"; "kill"; "bad"; "murder"; "shoot"].

(** What [requests.get], [raise_for_status] and [resp.json()] end in: an
    exception with its message, or the decoded body. *)
Inductive response : Type :=
| Failed (msg : string)
| Body (data : json).

(** The lines [fetch_all_news] prints. *)
Inductive event : Type :=
| Fetching (name : string)
| ErrorFailed (name : string) (msg : string)
| WarnNewsData
| WarnNewsAPI
| Info (name : string) (count : nat)
| Total (count : nat).

(** ** The aggregator: [fetch_all_news] *)

Section Aggregator.

(** The network: the answer to the request made for the [k]-th source. *)
Variable http_get : nat -> string -> list (string * json) -> response.
Variable repr_of : json -> string.

Variables (query language country : string) (max_results : Z).

(** The request parameters, per API type. *)
Definition build_params (api : Api.config) : list (string * json) :=
  if Api.has_type (Api.type api) "wikipedia" then
    [("action", JStr "query"); ("list", JStr "search");
     ("srsearch", JStr query); ("format", JStr "json");
     ("srlimit", JInt max_results)]
  else if Api.has_type (Api.type api) "newsdata" then
    [("q", JStr query); ("language", JStr language);
     ("country", JStr country);
     ("apikey", Py.of_option (Api.api_key api))]
  else
    [("q", JStr query); ("language", JStr language);
     ("pageSize", JInt max_results);
     ("apiKey", Py.of_option (Api.api_key api))].

(** [re.sub] wants a string. *)
Definition re_sub_tags (v : json) : res string :=
  match v with
  | JStr s => Ok (Re.sub_tags s)
  | _ => Raise TypeError
  end.

Definition wikipedia_article (item : json) : res article :=
  t ← Py.get item "title" JNull;
  snippet ← Py.get item "snippet" (JStr EmptyString);
  d ← re_sub_tags snippet;
  pageid ← Py.get item "pageid" JNull;
  Ok {| source := JStr "Wikipedia";
        title := t;
        description := JStr d;
        link := JStr ("https://en.wikipedia.org/?curid=" ++ Py.str repr_of pageid);
        pub_date := JStr EmptyString;
        keywords := JArr [];
        api_type := "wikipedia";
        enriched := None |}.

Definition newsdata_article (item : json) : res article :=
  source_id ← Py.get item "source_id" JNull;
  source_name ← Py.get item "source_name" JNull;
  t ← Py.get item "title" JNull;
  d ← Py.get item "description" JNull;
  l ← Py.get item "link" JNull;
  p ← Py.get item "pubDate" JNull;
  kw ← Py.get item "keywords" JNull;
  Ok {| source := Py.or (Py.or source_id source_name) (JStr "NewsData.io");
        title := t;
        description := Py.or d (JStr EmptyString);
        link := l;
        pub_date := p;
        keywords := Py.or kw (JArr []);
        api_type := "news";
        enriched := None |}.

Definition newsapi_article (item : json) : res article :=
  src ← Py.get item "source" (JObj []);
  nm ← Py.get src "name" (JStr "NewsAPI");
  t ← Py.get item "title" JNull;
  d ← Py.get item "description" JNull;
  l ← Py.get item "url" JNull;
  p ← Py.get item "publishedAt" JNull;
  Ok {| source := nm;
        title := t;
        description := Py.or d (JStr EmptyString);
        link := l;
        pub_date := p;
        keywords := JArr [];
        api_type := "news";
        enriched := None |}.

(** What a decoded body contributes: the articles in the order of the
    provider's list, or a warning when the status sentinel is wrong
    (the [continue] of the two news branches). *)
Inductive parsed : Type :=
| Articles (articles : list article)
| Warned (w : event).

Definition normalize (api_type : option string) (data : json) : res parsed :=
  if Api.has_type api_type "wikipedia" then
    q ← Py.get data "query" (JObj []);
    found ← Py.get q "search" (JArr []);
    items ← Py.iter found;
    articles ← traverse wikipedia_article items;
    Ok (Articles articles)
  else if Api.has_type api_type "newsdata" then
    status ← Py.get data "status" JNull;
    if Py.differs_from status "success" then Ok (Warned WarnNewsData)
    else
      results ← Py.get data "results" (JArr []);
      items ← Py.iter results;
      articles ← traverse newsdata_article items;
      Ok (Articles articles)
  else
    status ← Py.get data "status" JNull;
    if Py.differs_from status "ok" then Ok (Warned WarnNewsAPI)
    else
      listed ← Py.get data "articles" (JArr []);
      items ← Py.iter listed;
      articles ← traverse newsapi_article items;
      Ok (Articles articles).

(** The [try] block: a missing ["base_url"] is a [KeyError], caught like
    any failure of the request. *)
Definition call_api (k : nat) (api : Api.config) : response :=
  match Api.base_url api with
  | None => Failed "'base_url'"
  | Some url => http_get k url (build_params api)
  end.

(** One turn of the loop over [api_configs], for the [k]-th source: the
    articles it adds to [all_articles] and the lines it prints. *)
Definition fetch_source (k : nat) (api : Api.config)
  : res (list article * list event) :=
  let fetching := Fetching (default "unknown" (Api.name api)) in
  let label := default "API" (Api.name api) in
  match call_api k api with
  | Failed msg => Ok ([], [fetching; ErrorFailed label msg])
  | Body data =>
      p ← normalize (Api.type api) data;
      match p with
      | Warned w => Ok ([], [fetching; w])
      | Articles articles =>
          Ok (articles, [fetching; Info label (length articles)])
      end
  end.

Fixpoint fetch_loop (k : nat) (api_configs : list Api.config)
    (all_articles : list article) (log : list event)
  : res (list article * list event) :=
  match api_configs with
  | [] => Ok (all_articles, log)
  | api :: rest =>
      '(articles, printed) ← fetch_source k api;
      fetch_loop (S k) rest (all_articles ++ articles)%list (log ++ printed)%list
  end.

Definition fetch_all_news (api_configs : list Api.config)
  : res (list article * list event) :=
  '(all_articles, log) ← fetch_loop 0 api_configs [] [];
  Ok (all_articles, (log ++ [Total (length all_articles)])%list).

End Aggregator.

(** ** The local signal detector: [detect_harmful_words] *)

Section Detector.

Variable repr_of : json -> string.

(** The loop over the lexicon, adding to the set [found]. *)
Fixpoint scan_lexicon (lexicon : list string) (text : string)
    (found : gset string) : gset string :=
  match lexicon with
  | [] => found
  | word :: rest =>
      scan_lexicon rest text
        (if Re.search_word word text then {[Str.lower word]} ∪ found else found)
  end.

Definition detect_found (text : json) : gset string :=
  if Py.truthy text
  then scan_lexicon HARMFUL_KEYWORDS (Py.str repr_of text) ∅
  else ∅.

(** [list(found)]: the members, each once, in an order Python does not
    fix; [elements] stands for that order. *)
Definition detect_harmful_words (text : json) : list string :=
  elements (detect_found text).

(** The comprehension over the keyword list: for each keyword, in order,
    every lexicon word that is a substring of the lowered keyword. *)
Definition keyword_hits (kw : json) : list string :=
  List.filter (fun word => Str.contains word (Str.lower (Py.str repr_of kw)))
    HARMFUL_KEYWORDS.

Definition scan_keywords (kws : list json) : list string :=
  flat_map keyword_hits kws.

End Detector.

(** ** The detector on Unicode text

    The titles and descriptions [detect_harmful_words] reads come from
    the providers and hold any character.  Here a text is the list of its
    code points, of any size; the words of the lexicon, literals of the
    program, stay strings.  Below 256 the character tables are those of
    [Char]; from 256 on, what Python's [re] does is tabulated as far as
    the patterns of the program can tell the difference, and the rest of
    [\w] is left to the Unicode database of the interpreter. *)

Module Unicode.

(** A [str], as the list of its code points. *)
Definition text : Type := list N.

Definition of_string (s : string) : text :=
  map Char.code (list_ascii_of_string s).

(** The code points from 256 on that match a character below 256 under
    [re.IGNORECASE], each with the lowercase form of the characters it
    matches: capital I with dot above (304) and dotless i (305) match
    [i], long s (383) matches [s], the Kelvin sign (8490) [k], capital
    and small mu (924, 956) the micro sign, the Angstrom sign (8491) a
    with ring above, capital sharp s (7838) sharp s, capital y with
    diaeresis (376) its small form.  No other code point from 256 on
    matches a character below 256. *)
Definition case_partner (t : N) : option ascii :=
  if (t =? 304)%N || (t =? 305)%N then Some "i"%char
  else if (t =? 383)%N then Some "s"%char
  else if (t =? 8490)%N then Some "k"%char
  else if (t =? 924)%N || (t =? 956)%N then Some (ascii_of_N 181)
  else if (t =? 8491)%N then Some (ascii_of_N 229)
  else if (t =? 7838)%N then Some (ascii_of_N 223)
  else if (t =? 376)%N then Some (ascii_of_N 255)
  else None.

(** The lowercase character below 256 that a code point reads as when
    case is ignored, if there is one. *)
Definition lower_below_256 (t : N) : option ascii :=
  if (t <? 256)%N then Some (Char.lower (ascii_of_N t)) else case_partner t.

(** The character [p] of a pattern matches the code point [t] of the text
    under [re.IGNORECASE]. *)
Definition eq_ignorecase (p : ascii) (t : N) : bool :=
  match lower_below_256 t with
  | Some l => Ascii.eqb (Char.lower p) l
  | None => false
  end.

Section Tables.

(** [\w] on the code points this file does not tabulate: the answer of
    the interpreter's Unicode database. *)
Variable word_above : N -> bool.

(** [\w] on a [str] pattern.  The nine code points of [case_partner] are
    letters; the block of general punctuation (8192 to 8303: the
    typographic spaces, dashes, quotation marks, the ellipsis) holds no
    word character. *)
Definition is_word (c : N) : bool :=
  if (c <? 256)%N then Char.is_word (ascii_of_N c)
  else
    match case_partner c with
    | Some _ => true
    | None => if (8192 <=? c)%N && (c <=? 8303)%N then false else word_above c
    end.

Definition is_word_opt (c : option N) : bool :=
  match c with Some c => is_word c | None => false end.

(** [\b] between the code point before and the code point after. *)
Definition boundary (before after : option N) : bool :=
  xorb (is_word_opt before) (is_word_opt after).

(** Matches the literal [w] at the head of the text up to case; returns
    the last code point before the end of the match and the rest of the
    text. *)
Fixpoint literal_ignorecase (before : option N) (w : string) (t : text)
  : option (option N * text) :=
  match w with
  | EmptyString => Some (before, t)
  | String a w' =>
      match t with
      | [] => None
      | b :: t' =>
          if eq_ignorecase a b
          then literal_ignorecase (Some b) w' t'
          else None
      end
  end.

Definition word_at (before : option N) (w : string) (t : text) : bool :=
  boundary before (head t) &&
  match literal_ignorecase before w t with
  | Some (last, rest) => boundary last (head rest)
  | None => false
  end.

Fixpoint search_word_from (before : option N) (w : string) (t : text) : bool :=
  word_at before w t ||
  match t with
  | [] => false
  | c :: t' => search_word_from (Some c) w t'
  end.

(** [re.search(r'\b{}\b'.format(re.escape(w)), t, re.IGNORECASE)] finds
    a match. *)
Definition search_word (w : string) (t : text) : bool :=
  search_word_from None w t.

(** The loop over the lexicon, adding to the set [found]. *)
Fixpoint scan_lexicon (lexicon : list string) (t : text)
    (found : gset string) : gset string :=
  match lexicon with
  | [] => found
  | word :: rest =>
      scan_lexicon rest t
        (if search_word word t then {[Str.lower word]} ∪ found else found)
  end.

(** [if text:] holds of a string that is not empty. *)
Definition detect_found (t : text) : gset string :=
  match t with
  | [] => ∅
  | _ :: _ => scan_lexicon HARMFUL_KEYWORDS t ∅
  end.

Definition detect_harmful_words (t : text) : list string :=
  elements (detect_found t).

End Tables.

End Unicode.

(** ** The classifier client: [fetch_from_gemini_sentiment_intent] *)

(** How [generate_content] ends: a response with a [text], a response
    without one (printed through [str]), or an exception. *)
Inductive reply : Type :=
| ReplyText (text : string)
| ReplyObject (printed : string)
| ReplyError (msg : string).

Definition nl : string := String Char.newline EmptyString.

Definition build_prompt (text harm_words : string) : string :=
  "You are analyzing potentially harmful or scam-related news." ++ nl ++
  "I will provide news/article content and a list of detected harmful words." ++ nl ++
  "Please classify:" ++ nl ++
  "- Sentiment: one of [positive1, positive2, negative1, negative2, neutral]" ++ nl ++
  "- Intent: one of [harmful1, harmful2, harmless1, harmless2]" ++ nl ++
  "Definitions:" ++ nl ++
  "- positive1: mildly positive, positive2: strongly positive." ++ nl ++
  "- negative1: mildly negative, negative2: highly negative." ++ nl ++
  "- harmful1: contains mild threat/scam indicators, harmful2: high threat/scam/severe issue." ++ nl ++
  "- harmless1: content totally safe, harmless2: content with minor caution but not an actual threat." ++ nl ++
  "Base your answer on the article and the detected harmful words." ++ nl ++
  "Return in the exact format:" ++ nl ++
  "SENTIMENT={sentiment_label} INTENT={intent_label} REASON={short_reason}" ++ nl ++ nl ++
  "Article: " ++ text ++ nl ++
  "Harmful words: " ++ harm_words ++ nl.

Section Classifier.

(** The language model: the outcome of the [n]-th call. *)
Variable generate_content : nat -> string -> reply.

Definition fetch_from_gemini_sentiment_intent (n : nat)
    (text harm_words : string) : string :=
  match generate_content n (build_prompt text harm_words) with
  | ReplyText t => Str.strip t
  | ReplyObject printed => printed
  | ReplyError msg => "[Gemini API error: " ++ msg ++ "]"
  end.

End Classifier.

(** ** The categorizer: [full_categorize] *)

(** The three labels read from the reply.  The assignments run in order
    inside a [try]: a pattern that finds nothing raises at [.group], and
    the labels assigned before it keep their values. *)
Definition parse_labels (gemini_result : string) : string * string * string :=
  if Str.contains "SENTIMENT=" gemini_result && Str.contains "INTENT=" gemini_result
  then
    match Re.search_label "SENTIMENT=" gemini_result with
    | None => (EmptyString, EmptyString, EmptyString)
    | Some sentiment_label =>
        match Re.search_label "INTENT=" gemini_result with
        | None => (sentiment_label, EmptyString, EmptyString)
        | Some intent_label =>
            (sentiment_label, intent_label,
             match Re.search_rest_of_line "REASON=" gemini_result with
             | Some r => Str.strip r
             | None => EmptyString
             end)
        end
    end
  else (EmptyString, EmptyString, EmptyString).

(** The six keys written to the article once the reply is known. *)
Definition enrich (harmful_words : gset string) (gemini_result : string)
  : enrichment :=
  let '(sentiment_label, intent_label, reason_text) := parse_labels gemini_result in
  let is_harmful := Str.startswith intent_label "harmful" in
  {| harmful := is_harmful;
     harmful_words := elements harmful_words;
     gemini_sentiment := sentiment_label;
     gemini_intent := intent_label;
     gemini_reason := reason_text;
     gemini_raw := gemini_result |}.

(** [a + b] where [b] is a string: [a] has to be one as well. *)
Definition as_str (v : json) : res string :=
  match v with
  | JStr s => Ok s
  | _ => Raise TypeError
  end.

Section Categorizer.

Variable repr_of : json -> string.
Variable generate_content : nat -> string -> reply.

(** The set [harmful_words] of one article. *)
Definition local_signals (a : article) : res (gset string) :=
  let harmful_in_title := detect_harmful_words repr_of (title a) in
  let harmful_in_desc := detect_harmful_words repr_of (description a) in
  kws ← Py.iter (Py.or (keywords a) (JArr []));
  let harmful_in_keywords := scan_keywords repr_of kws in
  Ok (list_to_set
        (harmful_in_title ++ harmful_in_desc ++ harmful_in_keywords)%list).

(** [(title or '') + ". " + (description or '')] *)
Definition compose_text (a : article) : res string :=
  t ← as_str (Py.or (title a) (JStr EmptyString));
  d ← as_str (Py.or (description a) (JStr EmptyString));
  Ok (t ++ ". " ++ d).

Definition harm_words_arg (harmful_words : gset string) : string :=
  match elements harmful_words with
  | [] => "None"
  | l => Str.join ", " l
  end.

(** The body of the loop, for the article classified by call [n]. *)
Definition categorize_article (n : nat) (a : article) : res article :=
  harmful_words ← local_signals a;
  text ← compose_text a;
  let gemini_result :=
    fetch_from_gemini_sentiment_intent generate_content n text
      (harm_words_arg harmful_words) in
  Ok {| source := source a; title := title a; description := description a;
        link := link a; pub_date := pub_date a; keywords := keywords a;
        api_type := api_type a;
        enriched := Some (enrich harmful_words gemini_result) |}.

(** The store holds the article dictionaries; [articles] and
    [categorized] are lists of references into it. *)
Definition store : Type := nat -> article.

Definition update (h : store) (r : nat) (a : article) : store :=
  fun r' => if Nat.eqb r' r then a else h r'.

Fixpoint categorize_loop (n : nat) (h : store) (articles categorized : list nat)
  : res (list nat * store) :=
  match articles with
  | [] => Ok (categorized, h)
  | r :: rest =>
      a ← categorize_article n (h r);
      categorize_loop (S n) (update h r a) rest (categorized ++ [r])%list
  end.

Definition full_categorize (h : store) (articles : list nat)
  : res (list nat * store) :=
  categorize_loop 0 h articles [].

End Categorizer.

(** ** The main program: [fetch_all_news], then [full_categorize] *)

Section Main.

Variable http_get : nat -> string -> list (string * json) -> response.
Variable repr_of : json -> string.
Variable generate_content : nat -> string -> reply.
Variables (query language country : string) (max_results : Z).

(** What a cell of the store holds before a dictionary is put there. *)
Definition blank : article :=
  {| source := JNull; title := JNull; description := JNull; link := JNull;
     pub_date := JNull; keywords := JNull; api_type := EmptyString;
     enriched := None |}.

(** The dictionaries built by [fetch_all_news] are distinct objects: the
    [i]-th one is put at reference [i]. *)
Definition alloc (l : list article) : store := fun r => nth r l blank.

Definition main (api_configs : list Api.config) : res (list article) :=
  '(all_hits, _) ←
    fetch_all_news http_get repr_of query language country max_results api_configs;
  '(categorized, h) ←
    full_categorize repr_of generate_content (alloc all_hits)
      (seq 0 (length all_hits));
  Ok (map h categorized).

End Main.

(** ** The report of the main program *)

(** What the main program prints and writes after the classification: the
    block of lines of one hit (title, source and date, link, description,
    sentiment, intent, reason, harmful words, all read from the article),
    its flag line, the dump of the whole list to the results file with the
    line that counts it, and the entries of the harmful-only section. *)
Inductive line : Type :=
| ReportHeader
| HitLines (number : nat) (a : article)
| DangerFlag
| OkFlag
| Dumped (saved : list article)
| SavedLine (count : nat)
| NoValidArticles
| HarmfulHeader
| DangerLines (a : article).

(** [article['harmful']]: a [KeyError], here [None], when the key was
    never set. *)
Definition harmful_key (a : article) : option bool :=
  harmful <$> enriched a.

(** The loop over [enumerate(all_hits[:10])], from hit number [i + 1]. *)
Fixpoint print_hits (i : nat) (hits : list article) : option (list line) :=
  match hits with
  | [] => Some []
  | a :: rest =>
      match harmful_key a with
      | None => None
      | Some flag =>
          printed ← print_hits (S i) rest;
          Some (HitLines (S i) a :: (if flag : bool then DangerFlag else OkFlag)
                  :: printed)
      end
  end.

(** The loop of the harmful-only section, over the whole list. *)
Fixpoint print_harmful (all_hits : list article) : option (list line) :=
  match all_hits with
  | [] => Some []
  | a :: rest =>
      match harmful_key a with
      | None => None
      | Some flag =>
          printed ← print_harmful rest;
          Some (if flag : bool then DangerLines a :: printed else printed)
      end
  end.

Definition report (all_hits : list article) : option (list line) :=
  first ←
    match all_hits with
    | [] => Some [NoValidArticles]
    | _ =>
        printed ← print_hits 0 (take 10 all_hits);
        Some (printed ++ [Dumped all_hits; SavedLine (length all_hits)])%list
    end;
  second ← print_harmful all_hits;
  Some (ReportHeader :: first ++ HarmfulHeader :: second)%list.

(** * Vocabulary of the specification *)

(** Two strings of the pipeline are equal up to case. *)
Definition ci_equal (a b : string) : Prop := Str.lower a = Str.lower b.

(** The last character of [s], or [d] when [s] is empty. *)
Fixpoint last_or (d : option ascii) (s : string) : option ascii :=
  match s with
  | EmptyString => d
  | String c t => last_or (Some c) t
  end.

Definition last_char (s : string) : option ascii := last_or None s.

(** The text [mid] reads as the term when case is ignored: character by
    character, in the sense of [re.IGNORECASE]. *)
Definition reads_as (term : string) (mid : Unicode.text) : Prop :=
  Forall2 (fun p t => Unicode.eq_ignorecase p t = true)
    (list_ascii_of_string term) mid.

(** The last code point of a text, or [d] when the text is empty. *)
Fixpoint last_code_or (d : option N) (t : Unicode.text) : option N :=
  match t with
  | [] => d
  | c :: t' => last_code_or (Some c) t'
  end.

(** The term occurs in the text as a whole word, up to case: an
    occurrence with no word character right before it and none right
    after it. *)
Definition occurs_as_whole_word (word_above : N -> bool) (term : string)
    (t : Unicode.text) : Prop :=
  exists pre mid post,
    t = (pre ++ mid ++ post)%list /\ reads_as term mid
    /\ Unicode.is_word_opt word_above (last pre) = false
    /\ Unicode.is_word_opt word_above (head post) = false.

(** The term occurs in the text as a substring, up to case. *)
Definition occurs_as_substring (term text : string) : Prop :=
  exists pre mid post, text = pre ++ mid ++ post /\ ci_equal mid term.

(** A lexicon term begins and ends with a word character. *)
Definition word_ended (w : string) : bool :=
  Re.is_word_opt (Str.head w) && Re.is_word_opt (last_char w).

(** The keys of an article that the normalizer sets. *)
Definition base (a : article)
  : json * json * json * json * json * json * string :=
  (source a, title a, description a, link a, pub_date a, keywords a, api_type a).

(** The articles an article can be classified from: the keyword field can
    be iterated, title and description are strings or falsy. *)
Definition categorizable (a : article) : bool :=
  match Py.iter (Py.or (keywords a) (JArr [])),
        as_str (Py.or (title a) (JStr EmptyString)),
        as_str (Py.or (description a) (JStr EmptyString)) with
  | Ok _, Ok _, Ok _ => true
  | _, _, _ => false
  end.

(** A loop body run over a list with the number of the turn. *)
Fixpoint traverse_from {A B : Type} (k : nat) (f : nat -> A -> res B) (l : list A)
  : res (list B) :=
  match l with
  | [] => Ok []
  | x :: rest =>
      y ← f k x;
      ys ← traverse_from (S k) f rest;
      Ok (y :: ys)
  end.

(** The builder of the article dictionary, per API type. *)
Definition builder (repr_of : json -> string) (api_type : option string)
  : json -> res article :=
  if Api.has_type api_type "wikipedia" then wikipedia_article repr_of
  else if Api.has_type api_type "newsdata" then newsdata_article
  else newsapi_article.

(** The list of records the provider emitted, as the normalizer reads it
    from the body. *)
Definition provider_items (api_type : option string) (data : json) : res (list json) :=
  if Api.has_type api_type "wikipedia" then
    q ← Py.get data "query" (JObj []);
    found ← Py.get q "search" (JArr []);
    Py.iter found
  else if Api.has_type api_type "newsdata" then
    results ← Py.get data "results" (JArr []);
    Py.iter results
  else
    listed ← Py.get data "articles" (JArr []);
    Py.iter listed.

(** A token does not appear by appending a character it does not contain. *)
Fixpoint avoids (c : ascii) (w : string) : bool :=
  match w with
  | EmptyString => true
  | String a w' => negb (Ascii.eqb a c) && avoids c w'
  end.

(** * Sample data: configurations, provider bodies, networks *)

(** A stand-in for [repr]; the sample data prints no float, list or
    dictionary. *)
Definition no_repr (v : json) : string := EmptyString.

(** A model that answers every prompt with [harmful1]. *)
Definition sample_model (n : nat) (prompt : string) : reply :=
  ReplyText "SENTIMENT=negative1 INTENT=harmful1 REASON=describes a scam".

(** The model is out of service for every call. *)
Definition model_down (n : nat) (prompt : string) : reply :=
  ReplyError "503 service unavailable".

(** The call raises with a message that quotes a reply. *)
Definition model_rejects (n : nat) (prompt : string) : reply :=
  ReplyError "400 blocked: SENTIMENT=negative2 INTENT=harmful2 REASON=policy".

(** One Wikipedia hit about a scam. *)
Definition sample_article : article :=
  {| source := JStr "Wikipedia"; title := JStr "Advance-fee scam";
     description := JStr "A form of fraud"; link := JStr "https://en.wikipedia.org/?curid=1";
     pub_date := JStr EmptyString; keywords := JArr []; api_type := "wikipedia";
     enriched := None |}.

(** A NewsData.io article whose keywords mention scammers. *)
Definition tagged_article : article :=
  {| source := JStr "thestar"; title := JStr "Police briefing";
     description := JStr "Weekly briefing"; link := JNull; pub_date := JNull;
     keywords := JArr [JStr "crypto"; JStr "Scammers"]; api_type := "news";
     enriched := None |}.

(** The three configured sources, in the order of [API_CONFIGS], with
    stand-ins for the credentials. *)
Definition newsapi_config : Api.config :=
  {| Api.name := Some "NewsAPI"; Api.type := Some "newsapi";
     Api.base_url := Some "https://newsapi.org/v2/everything";
     Api.api_key := Some "key-a" |}.

Definition newsdata_config : Api.config :=
  {| Api.name := Some "NewsData.io"; Api.type := Some "newsdata";
     Api.base_url := Some "https://newsdata.io/api/1/latest";
     Api.api_key := Some "key-b" |}.

Definition wikipedia_config : Api.config :=
  {| Api.name := Some "Wikipedia"; Api.type := Some "wikipedia";
     Api.base_url := Some "https://en.wikipedia.org/w/api.php";
     Api.api_key := None |}.

Definition API_CONFIGS : list Api.config :=
  [newsapi_config; newsdata_config; wikipedia_config].

(** A NewsData.io body whose only record has neither description nor
    keywords nor title. *)
Definition bare_newsdata_body : json :=
  JObj [("status", JStr "success");
        ("results", JArr [JObj [("link", JStr "https://example.org/a");
                                ("description", JNull);
                                ("keywords", JNull)]])].

Definition bare_newsdata_article : article :=
  {| source := JStr "NewsData.io"; title := JNull;
     description := JStr EmptyString; link := JStr "https://example.org/a";
     pub_date := JNull; keywords := JArr []; api_type := "news";
     enriched := None |}.

(** A Wikipedia body and a NewsAPI body, each with one record that has no
    title. *)
Definition untitled_wikipedia_body : json :=
  JObj [("query", JObj [("search", JArr [JObj [("pageid", JInt 42);
                                               ("snippet", JStr "a <b>scam</b>")]])])].

Definition untitled_newsapi_body : json :=
  JObj [("status", JStr "ok");
        ("articles", JArr [JObj [("source", JObj [("name", JStr "Daily")]);
                                 ("url", JStr "https://example.org/b")]])].

Definition untitled_newsapi_article : article :=
  {| source := JStr "Daily"; title := JNull; description := JStr EmptyString;
     link := JStr "https://example.org/b"; pub_date := JNull;
     keywords := JArr []; api_type := "news"; enriched := None |}.

Definition untitled_wikipedia_article : article :=
  {| source := JStr "Wikipedia"; title := JNull; description := JStr "a scam";
     link := JStr "https://en.wikipedia.org/?curid=42";
     pub_date := JStr EmptyString; keywords := JArr []; api_type := "wikipedia";
     enriched := None |}.

(** A network where NewsData.io times out and the two others answer. *)
Definition newsdata_down (k : nat) (url : string) (params : list (string * json))
  : response :=
  match k with
  | 0 => Body untitled_newsapi_body
  | 1 => Failed "Read timed out."
  | _ => Body untitled_wikipedia_body
  end.

(** A NewsAPI body with a record whose source is [null], and a run over
    Wikipedia, NewsData.io and NewsAPI, in that order, where Wikipedia is
    down and NewsAPI answers with that body. *)
Definition newsapi_null_source_body : json :=
  JObj [("status", JStr "ok");
        ("articles", JArr [JObj [("source", JNull); ("title", JStr "Bank scam")]])].

Definition wikipedia_first : list Api.config :=
  [wikipedia_config; newsdata_config; newsapi_config].

Definition wikipedia_down (k : nat) (url : string) (params : list (string * json))
  : response :=
  match k with
  | 0 => Failed "503 Server Error"
  | 1 => Body bare_newsdata_body
  | _ => Body newsapi_null_source_body
  end.

(** A network where NewsData.io is down and Wikipedia answers with a body
    that is a list. *)
Definition newsdata_down_list_body (k : nat) (url : string)
    (params : list (string * json)) : response :=
  match k with
  | 0 => Body untitled_newsapi_body
  | 1 => Failed "Read timed out."
  | _ => Body (JArr [])
  end.

(** NewsAPI refuses the key: transport succeeds, the status is [error]. *)
Definition newsapi_error_body : list (string * json) :=
  [("status", JStr "error"); ("code", JStr "apiKeyInvalid");
   ("message", JStr "Your API key is invalid.")].

Definition newsapi_refuses (k : nat) (url : string) (params : list (string * json))
  : response :=
  match k with
  | 0 => Body (JObj newsapi_error_body)
  | 1 => Body bare_newsdata_body
  | _ => Body untitled_wikipedia_body
  end.

(** A run with two NewsAPI articles, NewsData.io down and one Wikipedia
    hit. *)
Definition two_newsapi_body : json :=
  JObj [("status", JStr "ok");
        ("articles",
         JArr [JObj [("source", JObj [("name", JStr "Daily")]);
                     ("title", JStr "Bank scam alert");
                     ("description", JStr "Police warn of a new scam");
                     ("url", JStr "https://example.org/1");
                     ("publishedAt", JStr "2025-01-01T00:00:00Z")];
               JObj [("source", JObj [("id", JNull)]);
                     ("title", JStr "Weather");
                     ("description", JNull);
                     ("url", JStr "https://example.org/2")]])].

Definition one_wikipedia_body : json :=
  JObj [("query",
         JObj [("search", JArr [JObj [("title", JStr "Advance-fee scam");
                                      ("pageid", JInt 7);
                                      ("snippet", JStr "An <i>advance-fee</i> fraud")]])])].

Definition sample_network (k : nat) (url : string) (params : list (string * json))
  : response :=
  match k with
  | 0 => Body two_newsapi_body
  | 1 => Failed "Read timed out."
  | _ => Body one_wikipedia_body
  end.

Definition sample_expected : list article :=
  [ {| source := JStr "Daily"; title := JStr "Bank scam alert";
       description := JStr "Police warn of a new scam";
       link := JStr "https://example.org/1";
       pub_date := JStr "2025-01-01T00:00:00Z";
       keywords := JArr []; api_type := "news"; enriched := None |};
    {| source := JStr "NewsAPI"; title := JStr "Weather";
       description := JStr EmptyString; link := JStr "https://example.org/2";
       pub_date := JNull; keywords := JArr []; api_type := "news";
       enriched := None |};
    {| source := JStr "Wikipedia"; title := JStr "Advance-fee scam";
       description := JStr "An advance-fee fraud";
       link := JStr "https://en.wikipedia.org/?curid=7";
       pub_date := JStr EmptyString; keywords := JArr [];
       api_type := "wikipedia"; enriched := None |} ].

(** * Further vocabulary *)

(** Every character of the string satisfies the test. *)
Fixpoint all_chars (p : ascii -> bool) (s : string) : bool :=
  match s with
  | EmptyString => true
  | String c t => p c && all_chars p t
  end.

(** The string holds a complete tag: a ['<'] followed on the same line by
    a ['>']. *)
Fixpoint has_tag (s : string) : bool :=
  match s with
  | EmptyString => false
  | String c t =>
      (Ascii.eqb c "<" && match Re.after_close t with Some _ => true | None => false end)
      || has_tag t
  end.

(** The harmful flag of an article, false while it has none. *)
Definition is_harmful (a : article) : bool :=
  match enriched a with
  | Some e => harmful e
  | None => false
  end.

(** The articles counted by the [INFO] lines of a trace. *)
Fixpoint info_total (log : list event) : nat :=
  match log with
  | [] => 0
  | Info _ count :: rest => count + info_total rest
  | _ :: rest => info_total rest
  end.

(** The messages of the [ERROR] lines of a trace. *)
Fixpoint error_count (log : list event) : nat :=
  match log with
  | [] => 0
  | ErrorFailed _ _ :: rest => S (error_count rest)
  | _ :: rest => error_count rest
  end.

(** The literal [p] and the key part ways at some character. *)
Fixpoint mismatch (key p : string) : bool :=
  match key, p with
  | String a k, String b q => if Ascii.eqb a b then mismatch k q else true
  | _, _ => false
  end.

(** No suffix of the literal [p] begins the key. *)
Fixpoint clear_of (key p : string) : bool :=
  match p with
  | EmptyString => true
  | String _ q => mismatch key p && clear_of key q
  end.

(** A model that answers the first call with [harmless1] and the later
    ones with [harmful2]. *)
Definition second_call_harmful (n : nat) (prompt : string) : reply :=
  ReplyText (if Nat.eqb n 0
             then "SENTIMENT=neutral INTENT=harmless1 REASON=a"
             else "SENTIMENT=negative2 INTENT=harmful2 REASON=b").

(** An article whose title is a number. *)
Definition numbered_article : article :=
  {| source := JNull; title := JInt 404; description := JNull;
     link := JNull; pub_date := JNull; keywords := JNull;
     api_type := "news"; enriched := None |}.

(** A network where every request fails. *)
Definition network_down (k : nat) (url : string) (params : list (string * json))
  : response :=
  Failed "Connection refused".

(** The body Wikipedia answers with when it rejects the query, and a
    network that always answers with it. *)
Definition wikipedia_error_body : list (string * json) :=
  [("error", JObj [("code", JStr "missingparam");
                   ("info", JStr "The srsearch parameter must be set.")])].

Definition wikipedia_error (k : nat) (url : string) (params : list (string * json))
  : response :=
  Body (JObj wikipedia_error_body).

(** A classified article with a given flag, and a list of eleven of them
    of which only the last is harmful. *)
Definition classified (flag : bool) : article :=
  {| source := JStr "Daily"; title := JStr "News"; description := JStr EmptyString;
     link := JNull; pub_date := JNull; keywords := JArr []; api_type := "news";
     enriched := Some {| harmful := flag; harmful_words := [];
                         gemini_sentiment := "neutral";
                         gemini_intent := if flag then "harmful1" else "harmless1";
                         gemini_reason := EmptyString; gemini_raw := EmptyString |} |}.

Definition eleven_hits : list article :=
  (replicate 10 (classified false) ++ [classified true])%list.

(** * Properties *)

(** ** Checks of the text functions on small inputs *)

Example sub_tags_span :
  Re.sub_tags "a <span class=x>scam</span> b" = "a scam b".
Proof. reflexivity. Qed.

Example sub_tags_open : Re.sub_tags "1 < 2" = "1 < 2".
Proof. reflexivity. Qed.

Example search_word_scam :
  Re.search_word "scam" "This is a SCAM alert" = true
  /\ Re.search_word "scam" "scammer" = false.
Proof. split; reflexivity. Qed.

Example strip_both : Str.strip "  high risk " = "high risk".
Proof. reflexivity. Qed.

(** ** Parsing the reply (C6) *)

Lemma enrich_fields hw raw :
  enrich hw raw =
    {| harmful := Str.startswith (snd (fst (parse_labels raw))) "harmful";
       harmful_words := elements hw;
       gemini_sentiment := fst (fst (parse_labels raw));
       gemini_intent := snd (fst (parse_labels raw));
       gemini_reason := snd (parse_labels raw);
       gemini_raw := raw |}.
Proof. unfold enrich. destruct (parse_labels raw) as [[s i] r]. reflexivity. Qed.

(** C6. The reply [SENTIMENT=negative2 INTENT=harmful2 REASON=high risk scam
    language] is parsed into the sentiment label [negative2], the intent
    label [harmful2] and the reason [high risk scam language], and the
    harmful flag derived from it is true, whatever the local harmful
    words are. *)
Theorem parse_reference_reply (hw : gset string) :
  let e := enrich hw "SENTIMENT=negative2 INTENT=harmful2 REASON=high risk scam language" in
  gemini_sentiment e = "negative2"
  /\ gemini_intent e = "harmful2"
  /\ gemini_reason e = "high risk scam language"
  /\ harmful e = true.
Proof. rewrite enrich_fields. repeat split. Qed.

Lemma parse_labels_missing raw :
  Str.contains "SENTIMENT=" raw = false \/ Str.contains "INTENT=" raw = false ->
  parse_labels raw = (EmptyString, EmptyString, EmptyString).
Proof.
  intros H. unfold parse_labels.
  destruct H as [H | H]; rewrite H; [reflexivity | ].
  rewrite andb_false_r. reflexivity.
Qed.

Lemma startswith_snoc c w s :
  avoids c w = true ->
  Str.startswith (s ++ String c EmptyString) w = Str.startswith s w.
Proof.
  unfold Str.startswith. revert s.
  induction w as [ | a w IH]; intros s Hw; [reflexivity | ].
  simpl in Hw. apply andb_true_iff in Hw as [Ha Hw].
  destruct s as [ | b s]; simpl.
  - apply negb_true_iff in Ha. rewrite Ha. reflexivity.
  - destruct (Ascii.eqb a b); [apply IH; exact Hw | reflexivity].
Qed.

Lemma contains_snoc c a w s :
  avoids c (String a w) = true ->
  Str.contains (String a w) (s ++ String c EmptyString) = Str.contains (String a w) s.
Proof.
  intros Hw. induction s as [ | b s IH].
  - simpl. unfold Str.startswith. simpl.
    simpl in Hw. apply andb_true_iff in Hw as [Ha _].
    apply negb_true_iff in Ha. rewrite Ha. reflexivity.
  - change (String b s ++ String c EmptyString)
      with (String b (s ++ String c EmptyString)).
    cbn [Str.contains]. rewrite IH.
    change (String b (s ++ String c EmptyString))
      with (String b s ++ String c EmptyString).
    rewrite (startswith_snoc c (String a w) (String b s) Hw). reflexivity.
Qed.

(** Steps [Str.contains] over the literal characters in front of the text. *)
Ltac skip_literal_prefix :=
  cbn -[Str.contains]; unfold Str.contains at 1; fold Str.contains;
  repeat (cbn [Str.startswith Str.strip_prefix Ascii.eqb Bool.eqb orb];
          unfold Str.contains at 1; fold Str.contains);
  cbn [Str.startswith Str.strip_prefix Ascii.eqb Bool.eqb orb].

(** The error placeholder holds a token only if the exception message
    does. *)
Lemma placeholder_sentiment msg :
  Str.contains "SENTIMENT=" ("[Gemini API error: " ++ msg ++ "]")
  = Str.contains "SENTIMENT=" msg.
Proof.
  skip_literal_prefix.
  apply (contains_snoc "]" "S" "ENTIMENT=" msg). reflexivity.
Qed.

Lemma placeholder_intent msg :
  Str.contains "INTENT=" ("[Gemini API error: " ++ msg ++ "]")
  = Str.contains "INTENT=" msg.
Proof.
  skip_literal_prefix.
  apply (contains_snoc "]" "I" "NTENT=" msg). reflexivity.
Qed.

(** ** The categorizer on the store (C1, C2, C9) *)

Section CategorizerFacts.

Variable repr_of : json -> string.
Variable generate_content : nat -> string -> reply.

Lemma harmful_enrich hw raw :
  harmful (enrich hw raw) = Str.startswith (gemini_intent (enrich hw raw)) "harmful".
Proof. rewrite enrich_fields. reflexivity. Qed.

(** What one turn of the loop writes: the keys of the normalizer are kept,
    and the six new keys come from the reply to this article's call. *)
Lemma categorize_article_inv n a a' :
  categorize_article repr_of generate_content n a = Ok a' ->
  base a' = base a
  /\ exists hw text,
       local_signals repr_of a = Ok hw /\ compose_text a = Ok text
       /\ enriched a' =
            Some (enrich hw (fetch_from_gemini_sentiment_intent generate_content n
                               text (harm_words_arg hw))).
Proof.
  unfold categorize_article. intros H.
  destruct (local_signals repr_of a) as [hw | e]; [ | discriminate].
  destruct (compose_text a) as [text | e]; [ | discriminate].
  cbn in H. injection H as <-. split; [reflexivity | ].
  exists hw, text. repeat split.
Qed.

(** An article is classified without an exception exactly when it is
    [categorizable]. *)
Lemma categorizable_iff n a :
  categorizable a = true <->
  exists a', categorize_article repr_of generate_content n a = Ok a'.
Proof.
  unfold categorizable, categorize_article, local_signals, compose_text.
  destruct (Py.iter (Py.or (keywords a) (JArr []))) as [kws | e1]; cbn.
  - destruct (as_str (Py.or (title a) (JStr EmptyString))) as [t | e2]; cbn.
    + destruct (as_str (Py.or (description a) (JStr EmptyString))) as [d | e3]; cbn.
      * split; [intros _; eexists; reflexivity | reflexivity].
      * split; [discriminate | intros [a' H]; discriminate].
    + split; [discriminate | intros [a' H]; discriminate].
  - split; [discriminate | intros [a' H]; discriminate].
Qed.

Lemma categorizable_base a b : base a = base b -> categorizable a = categorizable b.
Proof.
  unfold base, categorizable. intros H. injection H as _ Ht Hd _ _ Hk _.
  rewrite Ht, Hd, Hk. reflexivity.
Qed.

Lemma update_same h r a : update h r a r = a.
Proof. unfold update. rewrite Nat.eqb_refl. reflexivity. Qed.

Lemma update_other h r a r' : r' <> r -> update h r a r' = h r'.
Proof.
  intros Hne. unfold update. destruct (Nat.eqb_spec r' r); [contradiction | reflexivity].
Qed.

(** The loop returns the references it was given, in the same order,
    behind those already collected; it keeps the normalizer's keys of
    every dictionary, touches no dictionary outside the list, and leaves
    every listed one with the keys of some parsed reply. *)
Lemma categorize_loop_inv articles : forall n h categorized out h',
  categorize_loop repr_of generate_content n h articles categorized = Ok (out, h') ->
  out = (categorized ++ articles)%list
  /\ (forall r, base (h' r) = base (h r))
  /\ (forall r, r ∉ articles -> h' r = h r)
  /\ (forall r, r ∈ articles ->
        exists hw raw, enriched (h' r) = Some (enrich hw raw)).
Proof.
  induction articles as [ | r0 rest IH]; intros n h categorized out h' H.
  - cbn in H. injection H as <- <-. rewrite app_nil_r.
    split; [reflexivity | ]. split; [reflexivity | ]. split; [reflexivity | ].
    intros r Hr. inversion Hr.
  - cbn [categorize_loop] in H.
    destruct (categorize_article repr_of generate_content n (h r0)) as [a' | e] eqn:Ha;
      [ | discriminate].
    cbn in H. apply IH in H as (Hout & Hbase & Hout_of & Hin).
    apply categorize_article_inv in Ha as (Hb & hw & text & _ & _ & Hen).
    split; [rewrite Hout, <- app_assoc; reflexivity | ].
    split.
    { intros r. rewrite Hbase. unfold update.
      destruct (Nat.eqb_spec r r0) as [-> | ]; [exact Hb | reflexivity]. }
    split.
    { intros r Hr. rewrite Hout_of.
      - apply update_other. intros ->. apply Hr. left.
      - intros Hrest. apply Hr. right. exact Hrest. }
    intros r Hr. destruct (decide (r ∈ rest)) as [Hrest | Hrest].
    + apply Hin. exact Hrest.
    + apply elem_of_cons in Hr as [-> | Hr]; [ | contradiction].
      rewrite (Hout_of r0 Hrest), update_same. eauto.
Qed.

(** The loop runs to its end when every listed dictionary is
    categorizable. *)
Lemma categorize_loop_returns articles : forall n h categorized,
  (forall r, r ∈ articles -> categorizable (h r) = true) ->
  exists h', categorize_loop repr_of generate_content n h articles categorized
             = Ok ((categorized ++ articles)%list, h').
Proof.
  induction articles as [ | r0 rest IH]; intros n h categorized Hall.
  - exists h. cbn. rewrite app_nil_r. reflexivity.
  - cbn [categorize_loop].
    destruct (proj1 (categorizable_iff n (h r0))) as [a' Ha]; [apply Hall; left | ].
    rewrite Ha. cbn.
    destruct (IH (S n) (update h r0 a') (categorized ++ [r0])%list) as [h' Hloop].
    { intros r Hr. unfold update. destruct (Nat.eqb_spec r r0) as [-> | ].
      - apply categorize_article_inv in Ha as [Hb _].
        rewrite (categorizable_base _ _ Hb). apply Hall. left.
      - apply Hall. right. exact Hr. }
    exists h'. rewrite Hloop, <- app_assoc. reflexivity.
Qed.

End CategorizerFacts.

Lemma strip_prefix_Some p s rest :
  Str.strip_prefix p s = Some rest <-> s = p ++ rest.
Proof.
  revert s. induction p as [ | a p IH]; intros s; simpl.
  - split; [intros [= ->]; reflexivity | intros ->; reflexivity].
  - destruct s as [ | b s]; [split; discriminate | ].
    destruct (Ascii.eqb_spec a b) as [-> | Hne].
    + rewrite IH. split; [intros ->; reflexivity | intros [= ->]; reflexivity].
    + split; [discriminate | intros [= <- _]; contradiction].
Qed.

(** [s.startswith(p)] says that [s] begins with [p]. *)
Lemma startswith_iff s p :
  Str.startswith s p = true <-> exists rest, s = p ++ rest.
Proof.
  unfold Str.startswith.
  destruct (Str.strip_prefix p s) as [rest | ] eqn:H.
  - split; [intros _ | reflexivity]. exists rest. apply strip_prefix_Some, H.
  - split; [discriminate | intros [rest Hs]].
    apply strip_prefix_Some in Hs. congruence.
Qed.

(** C1. After [full_categorize], every article of the list has a harmful
    flag that is true exactly when its parsed intent label begins with
    [harmful]; two enrichments with the same intent label have the same
    flag whatever their harmful words are, and for one reply the flag is
    the same for every set of harmful words. *)
Theorem harmful_iff_intent_prefix
    (repr_of : json -> string) (generate_content : nat -> string -> reply)
    (h : store) (articles out : list nat) (h' : store) :
  full_categorize repr_of generate_content h articles = Ok (out, h') ->
  (forall r, r ∈ articles ->
     exists e, enriched (h' r) = Some e
       /\ (harmful e = true <-> exists rest, gemini_intent e = "harmful" ++ rest))
  /\ (forall hw1 hw2 raw1 raw2,
        gemini_intent (enrich hw1 raw1) = gemini_intent (enrich hw2 raw2) ->
        harmful (enrich hw1 raw1) = harmful (enrich hw2 raw2))
  /\ (forall hw1 hw2 raw, harmful (enrich hw1 raw) = harmful (enrich hw2 raw)).
Proof.
  intros H. apply categorize_loop_inv in H as (_ & _ & _ & Hin).
  split.
  { intros r Hr. destruct (Hin r Hr) as (hw & raw & He).
    exists (enrich hw raw). split; [exact He | ].
    rewrite harmful_enrich. apply startswith_iff. }
  split.
  - intros hw1 hw2 raw1 raw2 Hi. rewrite !harmful_enrich, Hi. reflexivity.
  - intros hw1 hw2 raw. rewrite !enrich_fields. reflexivity.
Qed.

Lemma harmful_iff_intent_prefix_witness :
  match full_categorize no_repr sample_model (alloc [sample_article]) [0] with
  | Ok (out, h') =>
      exists e, enriched (h' 0) = Some e
        /\ (harmful e = true <-> exists rest, gemini_intent e = "harmful" ++ rest)
  | Raise _ => False
  end.
Proof.
  destruct (full_categorize no_repr sample_model (alloc [sample_article]) [0])
    as [[out h'] | e] eqn:H.
  - apply (proj1 (harmful_iff_intent_prefix _ _ _ _ _ _ H) 0). left.
  - vm_compute in H. discriminate H.
Defined.

(** C2. A reply that lacks the token [SENTIMENT=] or the token [INTENT=]
    leaves the sentiment label, the intent label and the reason empty and
    the harmful flag false: so it is for every article [full_categorize]
    has processed whose raw reply lacks a token.  The placeholder returned
    when the call to the language model raises is such a reply whenever
    the exception message lacks one of the tokens. *)
Theorem missing_token_unclassified :
  (forall (hw : gset string) (raw : string),
     Str.contains "SENTIMENT=" raw = false \/ Str.contains "INTENT=" raw = false ->
     let e := enrich hw raw in
     gemini_sentiment e = EmptyString /\ gemini_intent e = EmptyString
     /\ gemini_reason e = EmptyString /\ harmful e = false)
  /\
  (forall (repr_of : json -> string) (generate_content : nat -> string -> reply)
          (h : store) (articles out : list nat) (h' : store) (r : nat)
          (e : enrichment),
     full_categorize repr_of generate_content h articles = Ok (out, h') ->
     r ∈ articles -> enriched (h' r) = Some e ->
     Str.contains "SENTIMENT=" (gemini_raw e) = false
     \/ Str.contains "INTENT=" (gemini_raw e) = false ->
     gemini_sentiment e = EmptyString /\ gemini_intent e = EmptyString
     /\ gemini_reason e = EmptyString /\ harmful e = false)
  /\
  (forall (generate_content : nat -> string -> reply) (n : nat)
          (text harm_words msg : string) (hw : gset string),
     generate_content n (build_prompt text harm_words) = ReplyError msg ->
     Str.contains "SENTIMENT=" msg = false \/ Str.contains "INTENT=" msg = false ->
     let e := enrich hw (fetch_from_gemini_sentiment_intent generate_content n
                           text harm_words) in
     gemini_raw e = "[Gemini API error: " ++ msg ++ "]"
     /\ gemini_sentiment e = EmptyString /\ gemini_intent e = EmptyString
     /\ gemini_reason e = EmptyString /\ harmful e = false).
Proof.
  assert (Hmissing : forall (hw : gset string) (raw : string),
     Str.contains "SENTIMENT=" raw = false \/ Str.contains "INTENT=" raw = false ->
     let e := enrich hw raw in
     gemini_sentiment e = EmptyString /\ gemini_intent e = EmptyString
     /\ gemini_reason e = EmptyString /\ harmful e = false).
  { intros hw raw H. cbv zeta. rewrite enrich_fields.
    rewrite (parse_labels_missing raw H). repeat split. }
  split; [exact Hmissing | ]. split.
  - intros repr_of gen h articles out h' r e Hrun Hr He Hraw.
    apply categorize_loop_inv in Hrun as (_ & _ & _ & Hin).
    destruct (Hin r Hr) as (hw & raw & He'). rewrite He' in He.
    injection He as <-. apply Hmissing.
    rewrite enrich_fields in Hraw. exact Hraw.
  - intros gen n text harm_words msg hw Hreply Hmsg.
    unfold fetch_from_gemini_sentiment_intent. rewrite Hreply.
    split; [rewrite enrich_fields; reflexivity | ].
    apply Hmissing.
    rewrite placeholder_sentiment, placeholder_intent. exact Hmsg.
Qed.

Lemma missing_token_unclassified_witness :
  (let e := enrich ∅ "I cannot classify this article." in
   gemini_sentiment e = EmptyString /\ gemini_intent e = EmptyString
   /\ gemini_reason e = EmptyString /\ harmful e = false)
  /\
  match full_categorize no_repr model_down (alloc [sample_article]) [0] with
  | Ok (out, h') =>
      exists e, enriched (h' 0) = Some e
        /\ gemini_raw e = "[Gemini API error: 503 service unavailable]"
        /\ gemini_sentiment e = EmptyString /\ gemini_intent e = EmptyString
        /\ gemini_reason e = EmptyString /\ harmful e = false
  | Raise _ => False
  end.
Proof.
  split.
  - apply (proj1 missing_token_unclassified ∅ "I cannot classify this article.").
    left. reflexivity.
  - destruct (full_categorize no_repr model_down (alloc [sample_article]) [0])
      as [[out h'] | ex] eqn:H; [ | vm_compute in H; discriminate H].
    assert (He : exists e, enriched (h' 0) = Some e
                   /\ gemini_raw e = "[Gemini API error: 503 service unavailable]").
    { pose proof H as H0. vm_compute in H0. injection H0 as _ <-.
      eexists. split; reflexivity. }
    destruct He as (e & He & Hraw). exists e.
    split; [exact He | ]. split; [exact Hraw | ].
    apply (proj1 (proj2 missing_token_unclassified) no_repr model_down
             (alloc [sample_article]) [0] out h' 0 e H); [left | exact He | ].
    rewrite Hraw. left. reflexivity.
Defined.

(** C2, as it is stated, fails for the error placeholder: the placeholder
    holds the exception message, and a message that carries both tokens
    is parsed like a reply.  Here every call to the language model
    raises; the article gets the labels of the message, the reason up to
    the closing bracket of the placeholder, and the harmful flag true. *)
Lemma error_placeholder_counterexample :
  (forall n prompt, exists msg, model_rejects n prompt = ReplyError msg)
  /\ match full_categorize no_repr model_rejects (alloc [sample_article]) [0] with
     | Ok (out, h') =>
         exists e, enriched (h' 0) = Some e
           /\ gemini_raw e
              = "[Gemini API error: 400 blocked: SENTIMENT=negative2 INTENT=harmful2 REASON=policy]"
           /\ gemini_sentiment e = "negative2" /\ gemini_intent e = "harmful2"
           /\ gemini_reason e = "policy]" /\ harmful e = true
     | Raise _ => False
     end
  /\ ~ (forall (generate_content : nat -> string -> reply) (n : nat)
               (text harm_words msg : string) (hw : gset string),
          generate_content n (build_prompt text harm_words) = ReplyError msg ->
          let e := enrich hw (fetch_from_gemini_sentiment_intent generate_content n
                                text harm_words) in
          gemini_sentiment e = EmptyString /\ gemini_intent e = EmptyString
          /\ gemini_reason e = EmptyString /\ harmful e = false).
Proof.
  split; [intros n prompt; eexists; reflexivity | ].
  split.
  - vm_compute. eexists. repeat split.
  - intros Hclaim.
    destruct (Hclaim model_rejects 0 EmptyString EmptyString _ ∅ eq_refl)
      as (_ & _ & _ & Hflag).
    vm_compute in Hflag. discriminate Hflag.
Qed.

(** ** The normalizer (C5, C7) *)

Lemma traverse_Forall2 {A B : Type} (f : A -> res B) (l : list A) : forall ys,
  traverse f l = Ok ys <-> Forall2 (fun x y => f x = Ok y) l ys.
Proof.
  induction l as [ | x rest IH]; intros ys; cbn.
  - split; [intros [= <-]; constructor | intros H; inversion H; reflexivity].
  - destruct (f x) as [y | e] eqn:Hx; cbn.
    + destruct (traverse f rest) as [ys' | e]; cbn.
      * split.
        -- intros [= <-]. constructor; [exact Hx | apply IH; reflexivity].
        -- intros H. inversion H as [ | ? y0 ? ys0 Hy Hrest]; subst.
           apply IH in Hrest. congruence.
      * split; [discriminate | ].
        intros H. inversion H as [ | ? y0 ? ys0 Hy Hrest]; subst.
        apply IH in Hrest. discriminate.
    + split; [discriminate | ].
      intros H. inversion H; subst. congruence.
Qed.

Lemma bind_Ok {A B : Type} (m : res A) (f : A -> res B) (b : B) :
  (m ≫= f) = Ok b <-> exists a, m = Ok a /\ f a = Ok b.
Proof.
  destruct m as [a | e]; cbn.
  - split; [intros H; exists a; auto | intros (a0 & [= <-] & H); exact H].
  - split; [discriminate | intros (a0 & H & _); discriminate].
Qed.

(** The normalizer builds one article per record of the provider's list,
    in the order of that list. *)
Lemma normalize_articles repr_of api_type data articles :
  normalize repr_of api_type data = Ok (Articles articles) <->
  exists items,
    provider_items api_type data = Ok items
    /\ Forall2 (fun item a => builder repr_of api_type item = Ok a) items articles
    /\ (Api.has_type api_type "wikipedia" = false ->
        exists fields,
          data = JObj fields
          /\ Py.differs_from (default JNull (Py.lookup "status" fields))
               (if Api.has_type api_type "newsdata" then "success" else "ok") = false).
Proof.
  unfold normalize, provider_items, builder.
  destruct (Api.has_type api_type "wikipedia").
  - split.
    + intros H.
      apply bind_Ok in H as (q & Hq & H). apply bind_Ok in H as (found & Hf & H).
      apply bind_Ok in H as (items & Hi & H). apply bind_Ok in H as (arts & Ha & H).
      injection H as <-. exists items. rewrite Hq; cbn. rewrite Hf; cbn.
      split; [exact Hi | ]. split; [apply traverse_Forall2, Ha | discriminate].
    + intros (items & H & Hall & _).
      apply bind_Ok in H as (q & Hq & H). apply bind_Ok in H as (found & Hf & Hi).
      rewrite Hq; cbn. rewrite Hf; cbn. rewrite Hi; cbn.
      apply traverse_Forall2 in Hall. rewrite Hall. reflexivity.
  - destruct (Api.has_type api_type "newsdata").
    + destruct data as [ | b | z | f | s | arr | fields];
        try (split; [discriminate | intros (items & H & _); discriminate]).
      cbn. destruct (Py.differs_from (default JNull (Py.lookup "status" fields)) "success") eqn:Hs.
      * split; [discriminate | ]. intros (items & _ & _ & H).
        destruct (H eq_refl) as (fields' & [= <-] & H'). congruence.
      * split.
        -- intros H. apply bind_Ok in H as (items & Hi & H).
           apply bind_Ok in H as (arts & Ha & H). injection H as <-.
           exists items. split; [exact Hi | ].
           split; [apply traverse_Forall2, Ha | eauto].
        -- intros (items & Hi & Hall & _). rewrite Hi; cbn.
           apply traverse_Forall2 in Hall. rewrite Hall. reflexivity.
    + destruct data as [ | b | z | f | s | arr | fields];
        try (split; [discriminate | intros (items & H & _); discriminate]).
      cbn. destruct (Py.differs_from (default JNull (Py.lookup "status" fields)) "ok") eqn:Hs.
      * split; [discriminate | ]. intros (items & _ & _ & H).
        destruct (H eq_refl) as (fields' & [= <-] & H'). congruence.
      * split.
        -- intros H. apply bind_Ok in H as (items & Hi & H).
           apply bind_Ok in H as (arts & Ha & H). injection H as <-.
           exists items. split; [exact Hi | ].
           split; [apply traverse_Forall2, Ha | eauto].
        -- intros (items & Hi & Hall & _). rewrite Hi; cbn.
           apply traverse_Forall2 in Hall. rewrite Hall. reflexivity.
Qed.

Lemma truthy_not_null v : Py.truthy v = true -> v <> JNull.
Proof. intros H ->. discriminate H. Qed.

Lemma or_default v dflt :
  Py.or v dflt = dflt \/ (Py.or v dflt = v /\ Py.truthy v = true).
Proof. unfold Py.or. destruct (Py.truthy v); auto. Qed.

Lemma truthy_str_false s : Py.truthy (JStr s) = false -> s = EmptyString.
Proof. destruct s; [reflexivity | discriminate]. Qed.

(** What the three builders have in common: the record is a dictionary,
    the title is the record's title as it is ([None] when there is none),
    and description and keywords are never [None], a missing or falsy
    value being replaced by the empty string and the empty list. *)
Lemma builder_inv repr_of api_type item a :
  builder repr_of api_type item = Ok a ->
  exists fields,
    item = JObj fields
    /\ title a = default JNull (Py.lookup "title" fields)
    /\ description a <> JNull /\ keywords a <> JNull
    /\ (Py.truthy (description a) = false -> description a = JStr EmptyString)
    /\ (Py.truthy (keywords a) = false -> keywords a = JArr []).
Proof.
  unfold builder. intros H.
  destruct item as [ | b | z | f | s | arr | fields];
    try (destruct (Api.has_type api_type "wikipedia");
         [ | destruct (Api.has_type api_type "newsdata")]; discriminate H).
  exists fields. split; [reflexivity | ].
  destruct (Api.has_type api_type "wikipedia");
    [ | destruct (Api.has_type api_type "newsdata")].
  - unfold wikipedia_article in H. cbn in H.
    destruct (default (JStr EmptyString) (Py.lookup "snippet" fields))
      as [ | b | z | f | s | arr | fs]; try discriminate H.
    cbn in H. injection H as <-. cbn.
    split; [reflexivity | ]. split; [discriminate | ]. split; [discriminate | ].
    split; [ | reflexivity].
    intros Hs. apply truthy_str_false in Hs. rewrite Hs. reflexivity.
  - unfold newsdata_article in H. cbn in H. injection H as <-. cbn.
    split; [reflexivity | ].
    destruct (or_default (default JNull (Py.lookup "description" fields)) (JStr EmptyString))
      as [-> | [-> Hd]];
    destruct (or_default (default JNull (Py.lookup "keywords" fields)) (JArr []))
      as [-> | [-> Hk]];
    repeat split; try discriminate; try reflexivity;
      try (apply truthy_not_null; assumption); congruence.
  - unfold newsapi_article in H. cbn in H.
    destruct (default (JObj []) (Py.lookup "source" fields))
      as [ | b | z | f | s | arr | fs]; try discriminate H.
    cbn in H. injection H as <-. cbn.
    split; [reflexivity | ].
    destruct (or_default (default JNull (Py.lookup "description" fields)) (JStr EmptyString))
      as [-> | [-> Hd]];
    repeat split; try discriminate; try reflexivity;
      try (apply truthy_not_null; assumption); congruence.
Qed.

(** C5. Every article the normalizer emits, for any of the three
    provider kinds and any body it accepts, has a description and a
    keywords field that are not [None]: where the provider gives no
    usable value they are the empty string and the empty list. *)
Theorem normalizer_never_null
    (repr_of : json -> string) (api_type : option string) (data : json)
    (articles : list article) (a : article) :
  normalize repr_of api_type data = Ok (Articles articles) ->
  a ∈ articles ->
  description a <> JNull /\ keywords a <> JNull
  /\ (Py.truthy (description a) = false -> description a = JStr EmptyString)
  /\ (Py.truthy (keywords a) = false -> keywords a = JArr []).
Proof.
  intros H Ha. apply normalize_articles in H as (items & _ & Hall & _).
  apply list_elem_of_lookup in Ha as [i Hi].
  destruct (Forall2_lookup_r _ _ _ _ _ Hall Hi) as (item & _ & Hb).
  apply builder_inv in Hb as (fields & _ & _ & H). exact H.
Qed.

Lemma normalizer_never_null_witness :
  normalize no_repr (Some "newsdata") bare_newsdata_body
    = Ok (Articles [bare_newsdata_article])
  /\ description bare_newsdata_article <> JNull
  /\ keywords bare_newsdata_article <> JNull.
Proof.
  assert (H : normalize no_repr (Some "newsdata") bare_newsdata_body
              = Ok (Articles [bare_newsdata_article])) by reflexivity.
  split; [exact H | ].
  destruct (normalizer_never_null no_repr (Some "newsdata") bare_newsdata_body
              [bare_newsdata_article] bare_newsdata_article H)
    as (Hd & Hk & _); [left | ].
  split; assumption.
Defined.

(** C7, as the code has it.  The title of every article the normalizer
    emits is the title value of the provider's record, whatever that
    value is, and it is [None] when the record has no title; this holds
    for the three provider kinds, record by record in the provider's
    order. *)
Theorem title_is_record_title
    (repr_of : json -> string) (api_type : option string) (data : json)
    (articles : list article) :
  normalize repr_of api_type data = Ok (Articles articles) ->
  exists items,
    provider_items api_type data = Ok items
    /\ Forall2 (fun item a =>
                  exists fields,
                    item = JObj fields
                    /\ title a = default JNull (Py.lookup "title" fields)
                    /\ (Py.lookup "title" fields = None -> title a = JNull))
         items articles.
Proof.
  intros H. apply normalize_articles in H as (items & Hitems & Hall & _).
  exists items. split; [exact Hitems | ].
  eapply Forall2_impl; [exact Hall | ].
  intros item a Hb. cbn in Hb.
  apply builder_inv in Hb as (fields & -> & Ht & _).
  exists fields. split; [reflexivity | ]. split; [exact Ht | ].
  intros Hnone. rewrite Ht, Hnone. reflexivity.
Qed.

Lemma title_is_record_title_witness :
  exists items,
    provider_items (Some "newsdata") bare_newsdata_body = Ok items
    /\ Forall2 (fun item a =>
                  exists fields,
                    item = JObj fields
                    /\ title a = default JNull (Py.lookup "title" fields)
                    /\ (Py.lookup "title" fields = None -> title a = JNull))
         items [bare_newsdata_article].
Proof.
  apply (title_is_record_title no_repr (Some "newsdata") bare_newsdata_body).
  reflexivity.
Defined.

(** C7, as it is stated, fails: for each of the three provider kinds a
    record without a title is normalized into an article whose title is
    [None], not a string. *)
Lemma title_null_counterexample :
  (exists a, normalize no_repr (Some "wikipedia") untitled_wikipedia_body = Ok (Articles [a])
             /\ title a = JNull /\ description a = JStr "a scam")
  /\ (exists a, normalize no_repr (Some "newsdata") bare_newsdata_body = Ok (Articles [a])
                /\ title a = JNull)
  /\ (exists a, normalize no_repr (Some "newsapi") untitled_newsapi_body = Ok (Articles [a])
                /\ title a = JNull)
  /\ ~ (forall api_type data articles a,
          normalize no_repr api_type data = Ok (Articles articles) ->
          a ∈ articles -> exists s, title a = JStr s).
Proof.
  split; [eexists; split; [reflexivity | split; reflexivity] | ].
  split; [eexists; split; reflexivity | ].
  split; [eexists; split; reflexivity | ].
  intros Hclaim.
  destruct (Hclaim (Some "newsdata") bare_newsdata_body
              [bare_newsdata_article] bare_newsdata_article eq_refl) as [s Hs];
    [left | discriminate Hs].
Qed.

(** ** The aggregator (C3, C10, C9) *)

Lemma traverse_from_app {A B : Type} (f : nat -> A -> res B) (l1 l2 : list A) :
  forall k,
    traverse_from k f (l1 ++ l2)%list =
      (r1 ← traverse_from k f l1;
       r2 ← traverse_from (k + length l1) f l2;
       Ok (r1 ++ r2)%list).
Proof.
  induction l1 as [ | x l1 IH]; intros k; cbn.
  - rewrite Nat.add_0_r. destruct (traverse_from k f l2); reflexivity.
  - destruct (f k x) as [y | e]; cbn; [ | reflexivity].
    rewrite IH. replace (S k + length l1) with (k + S (length l1)) by lia.
    destruct (traverse_from (S k) f l1) as [r1 | e]; cbn; [ | reflexivity].
    destruct (traverse_from (k + S (length l1)) f l2); reflexivity.
Qed.

(** The [i]-th result of an indexed loop comes from the [i]-th element. *)
Lemma traverse_from_lookup {A B : Type} (f : nat -> A -> res B) (l : list A) :
  forall k ys,
    traverse_from k f l = Ok ys ->
    length ys = length l
    /\ forall i x, l !! i = Some x -> exists y, ys !! i = Some y /\ f (k + i) x = Ok y.
Proof.
  induction l as [ | x0 l IH]; intros k ys H.
  - injection H as <-. split; [reflexivity | ]. intros i x Hx. inversion Hx.
  - cbn [traverse_from] in H.
    apply bind_Ok in H as (y0 & Hy0 & H). apply bind_Ok in H as (ys' & Hys & H).
    injection H as <-. destruct (IH _ _ Hys) as [Hlen Hnth].
    split; [cbn; rewrite Hlen; reflexivity | ].
    intros [ | i] x Hx.
    + injection Hx as <-. exists y0. rewrite Nat.add_0_r. split; [reflexivity | exact Hy0].
    + destruct (Hnth i x Hx) as (y & Hy & Hf). exists y.
      replace (k + S i) with (S k + i) by lia. split; [exact Hy | exact Hf].
Qed.

Section AggregatorFacts.

Variable http_get : nat -> string -> list (string * json) -> response.
Variable repr_of : json -> string.
Variables (query language country : string) (max_results : Z).

#[local] Abbreviation call_api' :=
  (call_api http_get query language country max_results).
#[local] Abbreviation fetch_source' :=
  (fetch_source http_get repr_of query language country max_results).
#[local] Abbreviation fetch_loop' :=
  (fetch_loop http_get repr_of query language country max_results).
#[local] Abbreviation fetch_all_news' :=
  (fetch_all_news http_get repr_of query language country max_results).

(** The loop appends, source after source, what each turn contributes. *)
Lemma fetch_loop_turns api_configs : forall k all_articles log,
  fetch_loop' k api_configs all_articles log =
    (turns ← traverse_from k fetch_source' api_configs;
     Ok ((all_articles ++ concat (map fst turns))%list,
         (log ++ concat (map snd turns))%list)).
Proof.
  induction api_configs as [ | api rest IH]; intros k all_articles log; cbn.
  - rewrite !app_nil_r. reflexivity.
  - destruct (fetch_source' k api) as [[articles printed] | e]; cbn; [ | reflexivity].
    rewrite IH.
    destruct (traverse_from (S k) fetch_source' rest) as [turns | e]; cbn;
      [ | reflexivity].
    rewrite <- !app_assoc. reflexivity.
Qed.

Lemma fetch_all_news_turns api_configs :
  fetch_all_news' api_configs =
    (turns ← traverse_from 0 fetch_source' api_configs;
     Ok (concat (map fst turns),
         (concat (map snd turns)
            ++ [Total (length (concat (map fst turns)))])%list)).
Proof.
  unfold fetch_all_news. rewrite fetch_loop_turns.
  destruct (traverse_from 0 fetch_source' api_configs); reflexivity.
Qed.

(** A source whose turn adds no article leaves the aggregate as if it were
    not configured, provided the turns of the other sources complete. *)
Lemma fetch_all_news_skip l1 api l2 printed turns1 turns2 :
  fetch_source' (length l1) api = Ok ([], printed) ->
  traverse_from 0 fetch_source' l1 = Ok turns1 ->
  traverse_from (S (length l1)) fetch_source' l2 = Ok turns2 ->
  exists log,
    fetch_all_news' (l1 ++ api :: l2)%list
      = Ok ((concat (map fst turns1) ++ concat (map fst turns2))%list, log)
    /\ (forall ev, ev ∈ printed -> ev ∈ log).
Proof.
  intros Hapi H1 H2. rewrite fetch_all_news_turns, traverse_from_app, H1.
  cbn. rewrite Hapi. cbn. rewrite H2. cbn.
  rewrite !List.map_app, !List.concat_app. cbn.
  eexists. split; [reflexivity | ].
  intros ev Hev. rewrite !elem_of_app. left. right. left. exact Hev.
Qed.

Lemma fetch_source_failed k api msg :
  call_api' k api = Failed msg ->
  fetch_source' k api =
    Ok ([], [Fetching (default "unknown" (Api.name api));
             ErrorFailed (default "API" (Api.name api)) msg]).
Proof. intros H. unfold fetch_source. rewrite H. reflexivity. Qed.

(** C3, as the code has it.  When the fetch of one source fails and the
    turn of every other source completes, [fetch_all_news] returns, without
    raising, exactly the articles of the other sources, concatenated in
    configuration order with each source's articles in the order of its
    turn; the failing source adds no article and an error line. *)
Theorem one_failure_tolerated
    (l1 l2 : list Api.config) (api : Api.config) (msg : string)
    (turns1 turns2 : list (list article * list event)) :
  call_api' (length l1) api = Failed msg ->
  traverse_from 0 fetch_source' l1 = Ok turns1 ->
  traverse_from (S (length l1)) fetch_source' l2 = Ok turns2 ->
  exists log,
    fetch_all_news' (l1 ++ api :: l2)%list
      = Ok ((concat (map fst turns1) ++ concat (map fst turns2))%list, log)
    /\ fetch_source' (length l1) api
         = Ok ([], [Fetching (default "unknown" (Api.name api));
                    ErrorFailed (default "API" (Api.name api)) msg])
    /\ ErrorFailed (default "API" (Api.name api)) msg ∈ log.
Proof.
  intros Hfail H1 H2. pose proof (fetch_source_failed _ _ _ Hfail) as Hsrc.
  destruct (fetch_all_news_skip l1 api l2 _ turns1 turns2 Hsrc H1 H2)
    as (log & Hall & Hlog).
  exists log. split; [exact Hall | ]. split; [exact Hsrc | ].
  apply Hlog. right. left.
Qed.

End AggregatorFacts.

Lemma one_failure_tolerated_witness :
  exists log,
    fetch_all_news newsdata_down no_repr "scam" "en" "my" 5 API_CONFIGS
      = Ok ([untitled_newsapi_article; untitled_wikipedia_article], log)
    /\ ErrorFailed "NewsData.io" "Read timed out." ∈ log.
Proof.
  edestruct (one_failure_tolerated newsdata_down no_repr "scam" "en" "my" 5
               [newsapi_config] [wikipedia_config] newsdata_config)
    as (log & H & _ & Hlog); [reflexivity | reflexivity | reflexivity | ].
  exists log. split; [exact H | exact Hlog].
Defined.

(** C3, as it is stated, fails: exactly one fetch fails, the two others
    succeed at the transport level, and an exception escapes
    [fetch_all_news].  In the first run Wikipedia, asked first, is down,
    which is tolerated, and a record of the NewsAPI body, read last, has a
    [null] source; in the second NewsData.io is down and the Wikipedia
    body is a list. *)
Lemma one_failure_counterexample :
  (call_api wikipedia_down "scam" "en" "my" 5 0 wikipedia_config
     = Failed "503 Server Error"
   /\ call_api wikipedia_down "scam" "en" "my" 5 1 newsdata_config
        = Body bare_newsdata_body
   /\ call_api wikipedia_down "scam" "en" "my" 5 2 newsapi_config
        = Body newsapi_null_source_body
   /\ (exists log,
         fetch_all_news wikipedia_down no_repr "scam" "en" "my" 5
           [wikipedia_config; newsdata_config] = Ok ([bare_newsdata_article], log))
   /\ fetch_all_news wikipedia_down no_repr "scam" "en" "my" 5 wikipedia_first
        = Raise AttributeError)
  /\
  (call_api newsdata_down_list_body "scam" "en" "my" 5 0 newsapi_config
     = Body untitled_newsapi_body
   /\ call_api newsdata_down_list_body "scam" "en" "my" 5 1 newsdata_config
        = Failed "Read timed out."
   /\ call_api newsdata_down_list_body "scam" "en" "my" 5 2 wikipedia_config
        = Body (JArr [])
   /\ fetch_all_news newsdata_down_list_body no_repr "scam" "en" "my" 5 API_CONFIGS
        = Raise AttributeError).
Proof.
  split.
  - split; [reflexivity | ]. split; [reflexivity | ]. split; [reflexivity | ].
    split; [eexists; reflexivity | reflexivity].
  - repeat split.
Qed.

Lemma differs_from_iff v s : Py.differs_from v s = true <-> v <> JStr s.
Proof.
  destruct v as [ | b | z | f | s' | arr | fields]; cbn;
    try (split; [discriminate | reflexivity]).
  destruct (String.eqb_spec s' s) as [-> | Hne]; cbn.
  - split; [discriminate | intros H; contradiction H; reflexivity].
  - split; [intros _ [= H]; contradiction | reflexivity].
Qed.

Lemma status_differs fields s :
  Py.lookup "status" fields <> Some (JStr s) ->
  Py.differs_from (default JNull (Py.lookup "status" fields)) s = true.
Proof.
  intros H. apply differs_from_iff. intros Heq. apply H.
  destruct (Py.lookup "status" fields) as [v | ]; cbn in Heq; [ | discriminate].
  rewrite Heq. reflexivity.
Qed.

(** C10. For a source handled by the NewsAPI branch (any type other than
    [wikipedia] and [newsdata]), a fetch that succeeds with a body whose
    top-level status is not the string [ok] adds no article, prints the
    NewsAPI warning and lets the loop go on: the aggregate holds the
    articles of the other sources only.  The NewsData.io branch does the
    same with the sentinel [success]. *)
Theorem newsapi_status_sentinel
    (http_get : nat -> string -> list (string * json) -> response)
    (repr_of : json -> string) (query language country : string) (max_results : Z)
    (k : nat) (api : Api.config) (fields : list (string * json)) :
  Api.has_type (Api.type api) "wikipedia" = false ->
  Api.has_type (Api.type api) "newsdata" = false ->
  call_api http_get query language country max_results k api = Body (JObj fields) ->
  Py.lookup "status" fields <> Some (JStr "ok") ->
  fetch_source http_get repr_of query language country max_results k api
    = Ok ([], [Fetching (default "unknown" (Api.name api)); WarnNewsAPI])
  /\ (forall l1 l2 turns1 turns2,
        k = length l1 ->
        traverse_from 0
          (fetch_source http_get repr_of query language country max_results) l1
          = Ok turns1 ->
        traverse_from (S k)
          (fetch_source http_get repr_of query language country max_results) l2
          = Ok turns2 ->
        exists log,
          fetch_all_news http_get repr_of query language country max_results
            (l1 ++ api :: l2)%list
            = Ok ((concat (map fst turns1) ++ concat (map fst turns2))%list, log)
          /\ WarnNewsAPI ∈ log)
  /\ (forall api' fields',
        Api.type api' = Some "newsdata" ->
        call_api http_get query language country max_results k api'
          = Body (JObj fields') ->
        Py.lookup "status" fields' <> Some (JStr "success") ->
        fetch_source http_get repr_of query language country max_results k api'
          = Ok ([], [Fetching (default "unknown" (Api.name api')); WarnNewsData])).
Proof.
  intros Hw Hn Hcall Hstatus.
  assert (Hsrc : fetch_source http_get repr_of query language country max_results k api
                 = Ok ([], [Fetching (default "unknown" (Api.name api)); WarnNewsAPI])).
  { unfold fetch_source. rewrite Hcall. unfold normalize. rewrite Hw, Hn. cbn.
    rewrite (status_differs fields "ok" Hstatus). reflexivity. }
  split; [exact Hsrc | ]. split.
  - intros l1 l2 turns1 turns2 -> H1 H2.
    destruct (fetch_all_news_skip http_get repr_of query language country max_results
                l1 api l2 _ turns1 turns2 Hsrc H1 H2) as (log & Hall & Hlog).
    exists log. split; [exact Hall | ]. apply Hlog. right. left.
  - intros api' fields' Htype Hcall' Hstatus'.
    unfold fetch_source. rewrite Hcall'. unfold normalize. rewrite Htype. cbn.
    rewrite (status_differs fields' "success" Hstatus'). reflexivity.
Qed.

Lemma newsapi_status_sentinel_witness :
  fetch_source newsapi_refuses no_repr "scam" "en" "my" 5 0 newsapi_config
    = Ok ([], [Fetching "NewsAPI"; WarnNewsAPI])
  /\ exists log,
       fetch_all_news newsapi_refuses no_repr "scam" "en" "my" 5 API_CONFIGS
         = Ok ([bare_newsdata_article; untitled_wikipedia_article], log)
       /\ WarnNewsAPI ∈ log.
Proof.
  destruct (newsapi_status_sentinel newsapi_refuses no_repr "scam" "en" "my" 5
              0 newsapi_config newsapi_error_body)
    as (Hsrc & Hall & _); [reflexivity | reflexivity | reflexivity | discriminate | ].
  split; [exact Hsrc | ].
  edestruct (Hall [] [newsdata_config; wikipedia_config]) as (log & H & Hlog);
    [reflexivity | reflexivity | reflexivity | ].
  exists log. split; [exact H | exact Hlog].
Defined.

Lemma map_nth_seq {A : Type} (l : list A) (d : A) :
  map (fun r => nth r l d) (seq 0 (length l)) = l.
Proof.
  induction l as [ | x l IH]; [reflexivity | ].
  cbn [length seq map nth]. f_equal.
  rewrite <- seq_shift, List.map_map. exact IH.
Qed.

(** C9. The articles [fetch_all_news] returns are those of the sources'
    turns, concatenated in the order of the configuration; the articles of
    one turn follow the order of the provider's list; [full_categorize]
    returns the references it was given, in the same order, each to the
    same article with its normalizer keys unchanged, and it does return
    when the articles are categorizable; so the sequence the main program
    ends with is, key for key, the concatenation of the turns. *)
Theorem final_order_is_config_then_emission
    (http_get : nat -> string -> list (string * json) -> response)
    (repr_of : json -> string) (generate_content : nat -> string -> reply)
    (query language country : string) (max_results : Z)
    (api_configs : list Api.config) :
  (forall all_articles log,
     fetch_all_news http_get repr_of query language country max_results api_configs
       = Ok (all_articles, log) ->
     exists turns,
       all_articles = concat (map fst turns)
       /\ length turns = length api_configs
       /\ forall i api,
            api_configs !! i = Some api ->
            exists turn,
              turns !! i = Some turn
              /\ fetch_source http_get repr_of query language country max_results
                   i api = Ok turn)
  /\ (forall k api data articles,
        call_api http_get query language country max_results k api = Body data ->
        normalize repr_of (Api.type api) data = Ok (Articles articles) ->
        fetch_source http_get repr_of query language country max_results k api
          = Ok (articles, [Fetching (default "unknown" (Api.name api));
                           Info (default "API" (Api.name api)) (length articles)])
        /\ exists items,
             provider_items (Api.type api) data = Ok items
             /\ Forall2 (fun item a => builder repr_of (Api.type api) item = Ok a)
                  items articles)
  /\ (forall h articles out h',
        full_categorize repr_of generate_content h articles = Ok (out, h') ->
        out = articles /\ length out = length articles
        /\ forall r, base (h' r) = base (h r))
  /\ (forall h articles,
        (forall r, r ∈ articles -> categorizable (h r) = true) ->
        exists h',
          full_categorize repr_of generate_content h articles = Ok (articles, h'))
  /\ (forall result,
        main http_get repr_of generate_content query language country max_results
          api_configs = Ok result ->
        exists turns,
          map base result = map base (concat (map fst turns))
          /\ length result = length (concat (map fst turns))
          /\ length turns = length api_configs
          /\ forall i api,
               api_configs !! i = Some api ->
               exists turn,
                 turns !! i = Some turn
                 /\ fetch_source http_get repr_of query language country max_results
                      i api = Ok turn).
Proof.
  assert (Hfetch : forall all_articles log,
     fetch_all_news http_get repr_of query language country max_results api_configs
       = Ok (all_articles, log) ->
     exists turns,
       traverse_from 0
         (fetch_source http_get repr_of query language country max_results)
         api_configs = Ok turns
       /\ all_articles = concat (map fst turns)).
  { intros all_articles log H. rewrite fetch_all_news_turns in H.
    apply bind_Ok in H as (turns & Hturns & H). injection H as <- _.
    exists turns. split; [exact Hturns | reflexivity]. }
  assert (Hturn : forall turns,
     traverse_from 0
       (fetch_source http_get repr_of query language country max_results)
       api_configs = Ok turns ->
     length turns = length api_configs
     /\ forall i api,
          api_configs !! i = Some api ->
          exists turn,
            turns !! i = Some turn
            /\ fetch_source http_get repr_of query language country max_results
                 i api = Ok turn).
  { intros turns H. apply traverse_from_lookup in H as [Hlen Hnth].
    split; [exact Hlen | ]. intros i api Hi. apply (Hnth i api Hi). }
  assert (Hcat : forall h articles out h',
        full_categorize repr_of generate_content h articles = Ok (out, h') ->
        out = articles /\ length out = length articles
        /\ forall r, base (h' r) = base (h r)).
  { intros h articles out h' H. apply categorize_loop_inv in H as (-> & Hbase & _).
    split; [reflexivity | ]. split; [reflexivity | exact Hbase]. }
  split.
  { intros all_articles log H. destruct (Hfetch _ _ H) as (turns & Hturns & ->).
    exists turns. split; [reflexivity | apply Hturn, Hturns]. }
  split.
  { intros k api data articles Hcall Hnorm. split.
    - unfold fetch_source. rewrite Hcall, Hnorm. reflexivity.
    - apply normalize_articles in Hnorm as (items & Hitems & Hall & _). eauto. }
  split; [exact Hcat | ]. split.
  { intros h articles Hall.
    destruct (categorize_loop_returns repr_of generate_content articles 0 h [] Hall)
      as [h' Hloop].
    exists h'. exact Hloop. }
  intros result H. unfold main in H.
  apply bind_Ok in H as ([all_hits log] & Hall & H).
  apply bind_Ok in H as ([categorized h'] & Hc & H). injection H as <-.
  destruct (Hfetch _ _ Hall) as (turns & Hturns & ->).
  destruct (Hcat _ _ _ _ Hc) as (-> & _ & Hbase).
  exists turns. split.
  { rewrite List.map_map.
    rewrite (map_ext _ (fun r => base (nth r (concat (map fst turns)) blank)))
      by (intros r; apply Hbase).
    rewrite <- (List.map_map (fun r => nth r (concat (map fst turns)) blank) base).
    rewrite map_nth_seq. reflexivity. }
  split; [rewrite length_map, length_seq; reflexivity | ].
  apply Hturn, Hturns.
Qed.

Lemma final_order_is_config_then_emission_witness :
  match main sample_network no_repr sample_model "scam" "en" "my" 5 API_CONFIGS with
  | Ok result => map base result = map base sample_expected /\ length result = 3
  | Raise _ => False
  end.
Proof.
  destruct (main sample_network no_repr sample_model "scam" "en" "my" 5 API_CONFIGS)
    as [result | e] eqn:H.
  - destruct (final_order_is_config_then_emission sample_network no_repr sample_model
                "scam" "en" "my" 5 API_CONFIGS)
      as (_ & _ & _ & _ & Hmain).
    destruct (Hmain result H) as (turns & Hmap & Hlen & Hn & Hturn).
    destruct turns as [ | t0 [ | t1 [ | t2 [ | t3 turns]]]]; try discriminate Hn.
    destruct (Hturn 0 newsapi_config eq_refl) as (t & [= <-] & H0).
    destruct (Hturn 1 newsdata_config eq_refl) as (t & [= <-] & H1).
    destruct (Hturn 2 wikipedia_config eq_refl) as (t & [= <-] & H2).
    vm_compute in H0, H1, H2.
    injection H0 as <-. injection H1 as <-. injection H2 as <-.
    split; [exact Hmap | exact Hlen].
  - vm_compute in H. discriminate H.
Defined.

(** ** Text: case and substrings (C8, C4) *)

Lemma char_lower_idem c : Char.lower (Char.lower c) = Char.lower c.
Proof. destruct c as [[] [] [] [] [] [] [] []]; reflexivity. Qed.

Lemma char_is_word_lower c : Char.is_word (Char.lower c) = Char.is_word c.
Proof. destruct c as [[] [] [] [] [] [] [] []]; reflexivity. Qed.

Lemma lower_app a b : Str.lower (a ++ b) = Str.lower a ++ Str.lower b.
Proof. induction a as [ | c a IH]; simpl; [reflexivity | rewrite IH; reflexivity]. Qed.

Lemma lower_idem s : Str.lower (Str.lower s) = Str.lower s.
Proof.
  induction s as [ | c s IH]; cbn; [reflexivity | ].
  rewrite char_lower_idem, IH. reflexivity.
Qed.

(** A split of the lowered string comes from a split of the string. *)
Lemma lower_split x : forall s y,
  Str.lower s = x ++ y ->
  exists a b, s = a ++ b /\ Str.lower a = x /\ Str.lower b = y.
Proof.
  induction x as [ | c x IH]; intros s y H.
  - exists EmptyString, s. repeat split. exact H.
  - destruct s as [ | d s]; [discriminate H | ].
    cbn in H. injection H as Hc Hs.
    destruct (IH s y Hs) as (a & b & -> & Ha & Hb).
    exists (String d a), b. cbn. rewrite Hc, Ha. repeat split. exact Hb.
Qed.

Lemma contains_startswith w s : Str.startswith s w = true -> Str.contains w s = true.
Proof. intros H. destruct s; simpl; rewrite H; reflexivity. Qed.

(** [w in s] says that [w] is a substring of [s]. *)
Lemma contains_iff w s :
  Str.contains w s = true <-> exists pre post, s = pre ++ w ++ post.
Proof.
  split.
  - induction s as [ | c s IH]; simpl; intros H.
    + rewrite orb_false_r in H. apply startswith_iff in H as [rest H].
      exists EmptyString, rest. exact H.
    + apply orb_true_iff in H as [H | H].
      * apply startswith_iff in H as [rest H]. exists EmptyString, rest. exact H.
      * destruct (IH H) as (pre & post & ->). exists (String c pre), post. reflexivity.
  - intros (pre & post & ->). induction pre as [ | c pre IH].
    + apply contains_startswith, startswith_iff. exists post. reflexivity.
    + simpl. rewrite IH. apply orb_true_r.
Qed.

(** On a lowercase term, the test of the keyword comprehension is the
    substring relation up to case. *)
Lemma contains_lower_iff w s :
  Str.lower w = w ->
  Str.contains w (Str.lower s) = true <-> occurs_as_substring w s.
Proof.
  intros Hw. rewrite contains_iff. unfold occurs_as_substring, ci_equal. split.
  - intros (pre' & post' & H).
    apply lower_split in H as (pre & rest & -> & _ & H).
    apply lower_split in H as (mid & post & -> & Hmid & _).
    exists pre, mid, post. split; [reflexivity | ]. rewrite Hmid, Hw. reflexivity.
  - intros (pre & mid & post & -> & Hmid).
    exists (Str.lower pre), (Str.lower post).
    rewrite !lower_app, Hmid, Hw. reflexivity.
Qed.

Lemma lexicon_lowercase w : w ∈ HARMFUL_KEYWORDS -> Str.lower w = w.
Proof.
  revert w.
  apply (proj1 (Forall_forall (fun w => Str.lower w = w) HARMFUL_KEYWORDS)).
  repeat constructor.
Qed.

Lemma keyword_hits_iff repr_of kw w :
  w ∈ keyword_hits repr_of kw <->
  w ∈ HARMFUL_KEYWORDS /\ occurs_as_substring w (Py.str repr_of kw).
Proof.
  unfold keyword_hits. rewrite list_elem_of_In, filter_In, <- list_elem_of_In.
  split; intros [Hw H]; (split; [exact Hw | ]);
    apply (contains_lower_iff _ _ (lexicon_lowercase w Hw)); exact H.
Qed.

Lemma scan_keywords_iff repr_of kws w :
  w ∈ scan_keywords repr_of kws <->
  w ∈ HARMFUL_KEYWORDS
  /\ exists kw, kw ∈ kws /\ occurs_as_substring w (Py.str repr_of kw).
Proof.
  unfold scan_keywords. rewrite list_elem_of_In, in_flat_map. split.
  - intros (kw & Hkw & Hw). apply list_elem_of_In in Hkw, Hw.
    apply keyword_hits_iff in Hw as [Hlex Hocc]. eauto.
  - intros (Hlex & kw & Hkw & Hocc). exists kw.
    rewrite <- !list_elem_of_In. split; [exact Hkw | ].
    apply keyword_hits_iff. auto.
Qed.

Lemma iter_keywords_list kws : Py.iter (Py.or (JArr kws) (JArr [])) = Ok kws.
Proof. destruct kws; reflexivity. Qed.

(** C8. The keyword scan of the categorizer collects exactly the lexicon
    terms that occur, up to case, as a substring of some keyword of the
    article, and every such term ends in the article's harmful words.  The
    rule is looser than the whole-word rule of the free-text scan: the
    keyword [scammer] yields [scam], the text [scammer] yields nothing. *)
Theorem keyword_scan_is_substring_match (repr_of : json -> string) (kws : list json) :
  (forall w,
     w ∈ scan_keywords repr_of kws <->
     w ∈ HARMFUL_KEYWORDS
     /\ exists kw, kw ∈ kws /\ occurs_as_substring w (Py.str repr_of kw))
  /\ (forall a hw w kw,
        keywords a = JArr kws ->
        local_signals repr_of a = Ok hw ->
        w ∈ HARMFUL_KEYWORDS -> kw ∈ kws ->
        occurs_as_substring w (Py.str repr_of kw) ->
        w ∈ hw)
  /\ scan_keywords repr_of [JStr "scammer"] = ["scam"]
  /\ detect_harmful_words repr_of (JStr "scammer") = [].
Proof.
  split; [intros w; apply scan_keywords_iff | ].
  split; [ | split; reflexivity].
  intros a hw w kw Hk Hsig Hlex Hkw Hocc.
  unfold local_signals in Hsig. rewrite Hk, iter_keywords_list in Hsig.
  cbn in Hsig. injection Hsig as <-.
  rewrite elem_of_list_to_set, !elem_of_app. right. right.
  apply scan_keywords_iff. eauto.
Qed.

Lemma keyword_scan_is_substring_match_witness :
  match local_signals no_repr tagged_article with
  | Ok hw => "scam" ∈ hw
  | Raise _ => False
  end.
Proof.
  destruct (local_signals no_repr tagged_article) as [hw | e] eqn:H.
  - apply (proj1 (proj2 (keyword_scan_is_substring_match no_repr
                           [JStr "crypto"; JStr "Scammers"]))
             tagged_article hw "scam" (JStr "Scammers") eq_refl H).
    + left.
    + right. left.
    + exists EmptyString, "Scam", "mers". split; reflexivity.
  - vm_compute in H. discriminate H.
Defined.

(** ** The whole-word scan (C4) *)

Lemma is_word_lower_eq a b :
  Char.lower a = Char.lower b -> Char.is_word a = Char.is_word b.
Proof.
  intros H. rewrite <- (char_is_word_lower a), <- (char_is_word_lower b), H.
  reflexivity.
Qed.

Lemma lexicon_word_ended w : w ∈ HARMFUL_KEYWORDS -> word_ended w = true.
Proof.
  revert w.
  apply (proj1 (Forall_forall (fun w => word_ended w = true) HARMFUL_KEYWORDS)).
  repeat constructor.
Qed.

(** The loop over the lexicon adds the lowered form of every word the
    pattern finds. *)
Lemma scan_lexicon_elem lexicon text : forall found w,
  w ∈ scan_lexicon lexicon text found <->
  w ∈ found
  \/ exists word, word ∈ lexicon /\ Re.search_word word text = true
                  /\ w = Str.lower word.
Proof.
  induction lexicon as [ | word0 rest IH]; intros found w; simpl.
  - split; [auto | ]. intros [H | (word & H & _)]; [exact H | inversion H].
  - rewrite IH. split.
    + intros [H | (word & Hin & Hs & ->)].
      * destruct (Re.search_word word0 text) eqn:Hs; [ | auto].
        apply elem_of_union in H as [H | H]; [ | auto].
        apply elem_of_singleton in H as ->. right. exists word0.
        split; [left | auto].
      * right. exists word. split; [right; exact Hin | auto].
    + intros [H | (word & Hin & Hs & ->)].
      * left. destruct (Re.search_word word0 text); [ | exact H].
        apply elem_of_union. right. exact H.
      * apply elem_of_cons in Hin as [-> | Hin].
        -- left. rewrite Hs. apply elem_of_union. left. apply elem_of_singleton.
           reflexivity.
        -- right. exists word. auto.
Qed.

Lemma detect_found_str repr_of text :
  detect_found repr_of (JStr text) = scan_lexicon HARMFUL_KEYWORDS text ∅.
Proof. destruct text; reflexivity. Qed.

Lemma code_below_256 c : (Char.code c <? 256)%N = true.
Proof. apply N.ltb_lt, N_ascii_bounded. Qed.

Lemma unicode_is_word_code word_above c :
  Unicode.is_word word_above (Char.code c) = Char.is_word c.
Proof.
  unfold Unicode.is_word. rewrite code_below_256.
  unfold Char.code at 1. rewrite ascii_N_embedding. reflexivity.
Qed.

Lemma unicode_eq_ignorecase_code p c :
  Unicode.eq_ignorecase p (Char.code c) = Char.eq_ignorecase p c.
Proof.
  unfold Unicode.eq_ignorecase, Unicode.lower_below_256.
  rewrite code_below_256. unfold Char.code. rewrite ascii_N_embedding.
  reflexivity.
Qed.

(** A code point that matches a character of a pattern up to case is a
    word character exactly when that character is one. *)
Lemma matched_is_word word_above p t :
  Unicode.eq_ignorecase p t = true ->
  Unicode.is_word word_above t = Char.is_word p.
Proof.
  unfold Unicode.eq_ignorecase, Unicode.lower_below_256, Unicode.is_word.
  destruct (t <? 256)%N.
  - intros H. apply Ascii.eqb_eq in H. symmetry. apply is_word_lower_eq, H.
  - destruct (Unicode.case_partner t) as [l | ] eqn:Hl; [ | discriminate].
    intros H. apply Ascii.eqb_eq in H.
    rewrite <- (char_is_word_lower p), H.
    unfold Unicode.case_partner in Hl.
    repeat match type of Hl with
           | (if ?b then _ else _) = _ => destruct b
           end;
      try discriminate Hl; injection Hl as <-; reflexivity.
Qed.

Lemma last_code_or_last t : forall d,
  last_code_or d t = match last t with Some c => Some c | None => d end.
Proof.
  induction t as [ | c t IH]; intros d; [reflexivity | ].
  cbn [last_code_or]. rewrite IH, last_cons. destruct (last t); reflexivity.
Qed.

Lemma last_code_or_None t : last_code_or None t = last t.
Proof. rewrite last_code_or_last. destruct (last t); reflexivity. Qed.

Lemma reads_as_nil mid : reads_as EmptyString mid <-> mid = [].
Proof.
  unfold reads_as. cbn. split; [apply Forall2_nil_inv_l | intros ->; constructor].
Qed.

Lemma reads_as_cons a w mid :
  reads_as (String a w) mid <->
  exists m mid', mid = m :: mid' /\ Unicode.eq_ignorecase a m = true
                 /\ reads_as w mid'.
Proof.
  unfold reads_as. cbn [list_ascii_of_string]. split.
  - intros H. apply Forall2_cons_inv_l in H as (m & mid' & Hm & Hr & ->).
    exists m, mid'. auto.
  - intros (m & mid' & -> & Hm & Hr). constructor; assumption.
Qed.

(** The literal matches at the head of the text exactly when the text
    begins with code points that read as it. *)
Lemma unicode_literal_ignorecase_iff w : forall before t last rest,
  Unicode.literal_ignorecase before w t = Some (last, rest) <->
  exists mid,
    t = (mid ++ rest)%list /\ reads_as w mid /\ last = last_code_or before mid.
Proof.
  induction w as [ | a w IH]; intros before t last rest;
    cbn [Unicode.literal_ignorecase].
  - split.
    + intros [= <- <-]. exists []. split; [reflexivity | ].
      split; [apply reads_as_nil | ]; reflexivity.
    + intros (mid & -> & Hmid & ->). apply reads_as_nil in Hmid as ->. reflexivity.
  - destruct t as [ | b t].
    + split; [discriminate | ].
      intros (mid & Ht & Hmid & _).
      apply reads_as_cons in Hmid as (m & mid' & -> & _). discriminate Ht.
    + destruct (Unicode.eq_ignorecase a b) eqn:Hab.
      * rewrite IH. split.
        -- intros (mid & -> & Hmid & ->). exists (b :: mid).
           split; [reflexivity | ]. split; [ | reflexivity].
           apply reads_as_cons. exists b, mid. auto.
        -- intros (mid & Ht & Hmid & ->).
           apply reads_as_cons in Hmid as (m & mid' & -> & _ & Hmid).
           injection Ht as <- ->. exists mid'. auto.
      * split; [discriminate | ].
        intros (mid & Ht & Hmid & _).
        apply reads_as_cons in Hmid as (m & mid' & -> & Hm & _).
        injection Ht as <- _. rewrite Hm in Hab. discriminate Hab.
Qed.

(** The search succeeds exactly when the text splits around code points
    that read as the word, with a word boundary on each side. *)
Lemma unicode_search_word_from_iff word_above w t : forall before,
  Unicode.search_word_from word_above before w t = true <->
  exists pre mid post,
    t = (pre ++ mid ++ post)%list /\ reads_as w mid
    /\ Unicode.boundary word_above (last_code_or before pre)
         (head (mid ++ post)%list) = true
    /\ Unicode.boundary word_above (last_code_or (last_code_or before pre) mid)
         (head post) = true.
Proof.
  assert (Hat : forall before t,
    Unicode.word_at word_above before w t = true <->
    exists mid post,
      t = (mid ++ post)%list /\ reads_as w mid
      /\ Unicode.boundary word_above before (head (mid ++ post)%list) = true
      /\ Unicode.boundary word_above (last_code_or before mid) (head post) = true).
  { intros before t0. unfold Unicode.word_at. rewrite andb_true_iff. split.
    - intros [Hb H].
      destruct (Unicode.literal_ignorecase before w t0) as [[last rest] | ] eqn:Hlit;
        [ | discriminate].
      apply unicode_literal_ignorecase_iff in Hlit as (mid & -> & Hmid & ->).
      exists mid, rest. auto.
    - intros (mid & post & -> & Hmid & Hb & He). split; [exact Hb | ].
      assert (Hlit : Unicode.literal_ignorecase before w (mid ++ post)%list
                     = Some (last_code_or before mid, post)).
      { apply unicode_literal_ignorecase_iff. exists mid. auto. }
      rewrite Hlit. exact He. }
  induction t as [ | c t IH]; intros before.
  - cbn [Unicode.search_word_from]. rewrite orb_false_r, Hat. split.
    + intros (mid & post & Ht & H). exists [], mid, post. auto.
    + intros (pre & mid & post & Ht & H).
      destruct pre; [ | discriminate]. exists mid, post. auto.
  - cbn [Unicode.search_word_from]. rewrite orb_true_iff, Hat, IH. split.
    + intros [(mid & post & Ht & H) | (pre & mid & post & -> & H)].
      * exists [], mid, post. auto.
      * exists (c :: pre), mid, post. auto.
    + intros (pre & mid & post & Ht & H). destruct pre as [ | p pre].
      * left. exists mid, post. auto.
      * right. cbn in Ht. injection Ht as <- ->. exists pre, mid, post. auto.
Qed.

Lemma head_reads_as word_above w mid post :
  reads_as w mid -> w <> EmptyString ->
  Unicode.is_word_opt word_above (head (mid ++ post)%list)
  = Re.is_word_opt (Str.head w).
Proof.
  intros H Hw. destruct w as [ | a w]; [contradiction | ].
  apply reads_as_cons in H as (m & mid' & -> & Hm & _).
  cbn. apply matched_is_word, Hm.
Qed.

Lemma last_reads_as word_above w : forall mid d d',
  reads_as w mid ->
  Unicode.is_word_opt word_above d = Re.is_word_opt d' ->
  Unicode.is_word_opt word_above (last_code_or d mid)
  = Re.is_word_opt (last_or d' w).
Proof.
  induction w as [ | a w IH]; intros mid d d' H Hd.
  - apply reads_as_nil in H as ->. exact Hd.
  - apply reads_as_cons in H as (m & mid' & -> & Hm & H).
    cbn [last_code_or last_or]. apply IH; [exact H | ].
    cbn. apply matched_is_word, Hm.
Qed.

(** For a term that begins and ends with a word character, the pattern
    finds the term exactly when it occurs as a whole word. *)
Lemma unicode_search_word_iff word_above w t :
  word_ended w = true ->
  Unicode.search_word word_above w t = true <-> occurs_as_whole_word word_above w t.
Proof.
  unfold word_ended, last_char. intros Hw. apply andb_true_iff in Hw as [Hh Hl].
  assert (Hne : w <> EmptyString) by (intros ->; discriminate Hh).
  assert (Hlast : forall mid d, reads_as w mid ->
            Unicode.is_word_opt word_above (last_code_or d mid) = true).
  { intros mid d Hmid. destruct w as [ | a w]; [contradiction | ].
    apply reads_as_cons in Hmid as (m & mid' & -> & Hm & Hmid).
    cbn [last_code_or]. cbn [last_or] in Hl. rewrite <- Hl.
    apply last_reads_as; [exact Hmid | ]. cbn. apply matched_is_word, Hm. }
  unfold Unicode.search_word, occurs_as_whole_word.
  rewrite unicode_search_word_from_iff.
  split; intros (pre & mid & post & Ht & Hmid & Hb & He);
    exists pre, mid, post; (split; [exact Ht | ]); (split; [exact Hmid | ]);
    unfold Unicode.boundary in *.
  - rewrite (head_reads_as word_above w mid post Hmid Hne), Hh,
      last_code_or_None in Hb.
    rewrite (Hlast mid _ Hmid) in He.
    split.
    + destruct (Unicode.is_word_opt word_above (last pre));
        [discriminate Hb | reflexivity].
    + destruct (Unicode.is_word_opt word_above (head post));
        [discriminate He | reflexivity].
  - rewrite (head_reads_as word_above w mid post Hmid Hne), Hh,
      (Hlast mid _ Hmid), last_code_or_None, Hb, He.
    split; reflexivity.
Qed.

(** The loop over the lexicon adds the lowered form of every word the
    pattern finds. *)
Lemma unicode_scan_lexicon_elem word_above lexicon t : forall found w,
  w ∈ Unicode.scan_lexicon word_above lexicon t found <->
  w ∈ found
  \/ exists word, word ∈ lexicon /\ Unicode.search_word word_above word t = true
                  /\ w = Str.lower word.
Proof.
  induction lexicon as [ | word0 rest IH]; intros found w; cbn [Unicode.scan_lexicon].
  - split; [auto | ]. intros [H | (word & H & _)]; [exact H | inversion H].
  - rewrite IH. split.
    + intros [H | (word & Hin & Hs & ->)].
      * destruct (Unicode.search_word word_above word0 t) eqn:Hs; [ | auto].
        apply elem_of_union in H as [H | H]; [ | auto].
        apply elem_of_singleton in H as ->. right. exists word0.
        split; [left | auto].
      * right. exists word. split; [right; exact Hin | auto].
    + intros [H | (word & Hin & Hs & ->)].
      * left. destruct (Unicode.search_word word_above word0 t); [ | exact H].
        apply elem_of_union. right. exact H.
      * apply elem_of_cons in Hin as [-> | Hin].
        -- left. rewrite Hs. apply elem_of_union. left. apply elem_of_singleton.
           reflexivity.
        -- right. exists word. auto.
Qed.

(** An empty text holds no occurrence of a lexicon term. *)
Lemma no_word_in_empty word_above w :
  w ∈ HARMFUL_KEYWORDS -> ~ occurs_as_whole_word word_above w [].
Proof.
  intros Hin (pre & mid & post & Ht & Hmid & _).
  symmetry in Ht. apply app_eq_nil in Ht as [_ Ht]. apply app_eq_nil in Ht as [-> _].
  pose proof (lexicon_word_ended w Hin) as Hw.
  destruct w as [ | a w]; [discriminate Hw | ].
  apply reads_as_cons in Hmid as (m & mid' & Hm & _). discriminate Hm.
Qed.

(** The two alphabets agree below 256. *)
Lemma head_of_string s :
  head (Unicode.of_string s) = Char.code <$> Str.head s.
Proof. destruct s; reflexivity. Qed.

Lemma unicode_is_word_opt_code word_above o :
  Unicode.is_word_opt word_above (Char.code <$> o) = Re.is_word_opt o.
Proof. destruct o as [c | ]; [apply unicode_is_word_code | reflexivity]. Qed.

Lemma unicode_boundary_code word_above a b :
  Unicode.boundary word_above (Char.code <$> a) (Char.code <$> b) = Re.boundary a b.
Proof. unfold Unicode.boundary. rewrite !unicode_is_word_opt_code. reflexivity. Qed.

Lemma unicode_literal_code w : forall before s,
  Unicode.literal_ignorecase (Char.code <$> before) w (Unicode.of_string s)
  = (fun lr : option ascii * string =>
       (Char.code <$> fst lr, Unicode.of_string (snd lr)))
      <$> Re.literal_ignorecase before w s.
Proof.
  induction w as [ | a w IH]; intros before s; [reflexivity | ].
  destruct s as [ | b s]; [reflexivity | ].
  change (Unicode.of_string (String b s)) with (Char.code b :: Unicode.of_string s).
  cbn [Unicode.literal_ignorecase Re.literal_ignorecase].
  rewrite unicode_eq_ignorecase_code.
  destruct (Char.eq_ignorecase a b); [ | reflexivity].
  apply (IH (Some b) s).
Qed.

Lemma unicode_word_at_code word_above w before s :
  Unicode.word_at word_above (Char.code <$> before) w (Unicode.of_string s)
  = Re.word_at before w s.
Proof.
  unfold Unicode.word_at, Re.word_at.
  rewrite unicode_literal_code, head_of_string, unicode_boundary_code.
  destruct (Re.literal_ignorecase before w s) as [[last rest] | ]; [ | reflexivity].
  cbn [fmap option_fmap option_map fst snd].
  rewrite head_of_string, unicode_boundary_code. reflexivity.
Qed.

Lemma unicode_search_word_from_code word_above w s : forall before,
  Unicode.search_word_from word_above (Char.code <$> before) w (Unicode.of_string s)
  = Re.search_word_from before w s.
Proof.
  induction s as [ | c s IH]; intros before.
  - change (Unicode.of_string EmptyString) with (@nil N).
    cbn [Unicode.search_word_from Re.search_word_from].
    change (@nil N) with (Unicode.of_string EmptyString).
    rewrite unicode_word_at_code. reflexivity.
  - change (Unicode.of_string (String c s)) with (Char.code c :: Unicode.of_string s).
    cbn [Unicode.search_word_from Re.search_word_from].
    change (Char.code c :: Unicode.of_string s) with (Unicode.of_string (String c s)).
    rewrite unicode_word_at_code.
    change (Some (Char.code c)) with (Char.code <$> Some c).
    rewrite (IH (Some c)). reflexivity.
Qed.

Lemma unicode_search_word_code word_above w s :
  Unicode.search_word word_above w (Unicode.of_string s) = Re.search_word w s.
Proof. apply (unicode_search_word_from_code word_above w s None). Qed.

Lemma unicode_scan_lexicon_code word_above lexicon s : forall found,
  Unicode.scan_lexicon word_above lexicon (Unicode.of_string s) found
  = scan_lexicon lexicon s found.
Proof.
  induction lexicon as [ | word rest IH]; intros found; [reflexivity | ].
  cbn [Unicode.scan_lexicon scan_lexicon].
  rewrite unicode_search_word_code. apply IH.
Qed.

(** On a text of code points below 256 the detector on Unicode text is
    the detector of the pipeline. *)
Lemma detect_below_256 word_above repr_of s :
  Unicode.detect_harmful_words word_above (Unicode.of_string s)
  = detect_harmful_words repr_of (JStr s).
Proof.
  unfold Unicode.detect_harmful_words, detect_harmful_words. f_equal.
  rewrite detect_found_str. destruct s as [ | c s]; [reflexivity | ].
  apply (unicode_scan_lexicon_code word_above HARMFUL_KEYWORDS (String c s)).
Qed.

(** On text below 256, reading as the term is equality after
    [str.lower]. *)
Lemma reads_as_below_256 w : forall mid,
  reads_as w (Unicode.of_string mid) <-> ci_equal mid w.
Proof.
  unfold ci_equal.
  induction w as [ | a w IH]; intros mid.
  - rewrite reads_as_nil. destruct mid; cbn; split; try discriminate; auto.
  - rewrite reads_as_cons. destruct mid as [ | m mid].
    + split; [intros (x & y & H & _); discriminate H | intros H; discriminate H].
    + change (Unicode.of_string (String m mid))
        with (Char.code m :: Unicode.of_string mid).
      split.
      * intros (x & y & [= <- <-] & Hm & Hr).
        rewrite unicode_eq_ignorecase_code in Hm. apply IH in Hr.
        unfold Char.eq_ignorecase in Hm. apply Ascii.eqb_eq in Hm.
        simpl. rewrite Hm, Hr. reflexivity.
      * intros H. simpl in H. injection H as Hm Hr.
        exists (Char.code m), (Unicode.of_string mid).
        split; [reflexivity | ]. split; [ | apply IH, Hr].
        rewrite unicode_eq_ignorecase_code. unfold Char.eq_ignorecase.
        apply Ascii.eqb_eq. symmetry. exact Hm.
Qed.

(** C4. On every text, a sequence of code points of any size,
    [detect_harmful_words] returns, each once, exactly the lexicon terms
    that occur in the text as whole words up to case, whatever the
    interpreter's table of word characters is beyond the code points
    tabulated here.  The detector of the pipeline is this detector on
    text below 256, where reading as a term is equality after
    [str.lower].  On [This is a scam alert] it returns [scam] alone; on
    [scammer] it does not return [scam]. *)
Theorem detect_is_whole_word_match (word_above : N -> bool) (t : Unicode.text) :
  NoDup (Unicode.detect_harmful_words word_above t)
  /\ (forall w,
        w ∈ Unicode.detect_harmful_words word_above t <->
        w ∈ HARMFUL_KEYWORDS /\ occurs_as_whole_word word_above w t)
  /\ (forall (repr_of : json -> string) (s : string),
        detect_harmful_words repr_of (JStr s)
        = Unicode.detect_harmful_words word_above (Unicode.of_string s))
  /\ (forall w mid, reads_as w (Unicode.of_string mid) <-> ci_equal mid w)
  /\ Unicode.detect_harmful_words word_above
       (Unicode.of_string "This is a scam alert") = ["scam"]
  /\ "scam" ∉ Unicode.detect_harmful_words word_above (Unicode.of_string "scammer").
Proof.
  split; [apply NoDup_elements | ].
  split.
  - unfold Unicode.detect_harmful_words.
    intros w. rewrite elem_of_elements. destruct t as [ | c t].
    + cbn [Unicode.detect_found]. split; [intros H; inversion H | ].
      intros [Hin Hocc]. destruct (no_word_in_empty word_above w Hin Hocc).
    + cbn [Unicode.detect_found]. rewrite unicode_scan_lexicon_elem. split.
      * intros [H | (word & Hin & Hs & ->)]; [inversion H | ].
        rewrite (lexicon_lowercase word Hin). split; [exact Hin | ].
        apply unicode_search_word_iff; [apply lexicon_word_ended, Hin | exact Hs].
      * intros [Hin Hocc]. right. exists w. split; [exact Hin | ].
        split; [ | symmetry; apply lexicon_lowercase, Hin].
        apply unicode_search_word_iff; [apply lexicon_word_ended, Hin | exact Hocc].
  - split; [intros repr_of s; symmetry; apply detect_below_256 | ].
    split; [apply reads_as_below_256 | ].
    split; [reflexivity | ].
    intros H. vm_compute in H. inversion H.
Qed.

(** The term between typographic quotation marks (8220, 8221), written
    with a long s (383) and a capital C, is found, even if every code
    point that is not tabulated were a word character. *)
Lemma detect_is_whole_word_match_witness :
  "scam" ∈ Unicode.detect_harmful_words (fun _ => true)
             [8220; 383; 67; 97; 109; 8221]%N.
Proof.
  apply (proj1 (proj2 (detect_is_whole_word_match (fun _ => true)
                         [8220; 383; 67; 97; 109; 8221]%N)) "scam").
  split; [left | ].
  exists [8220]%N, [383; 67; 97; 109]%N, [8221]%N.
  split; [reflexivity | ]. split; [repeat constructor | ]. split; reflexivity.
Defined.

(** * Further properties of the code *)

(** ** Tag stripping *)

Lemma after_close_shorter s : forall rest,
  Re.after_close s = Some rest -> String.length rest < String.length s.
Proof.
  induction s as [ | c s IH]; intros rest H; simpl in H; [discriminate | ].
  destruct (Ascii.eqb c ">"); [injection H as <-; simpl; lia | ].
  destruct (Ascii.eqb c Char.newline); [discriminate | ].
  apply IH in H. simpl. lia.
Qed.

(** What follows an unclosed ['<'] stays unclosed when tags are removed
    from it. *)
Lemma after_close_sub_tags fuel : forall s,
  Re.after_close s = None -> Re.after_close (Re.sub_tags_fuel fuel s) = None.
Proof.
  induction fuel as [ | fuel IH]; intros s H; [exact H | ].
  destruct s as [ | c s]; [reflexivity | ].
  simpl in H. cbn [Re.sub_tags_fuel].
  destruct (Ascii.eqb c ">") eqn:Hgt; [discriminate | ].
  destruct (Ascii.eqb c Char.newline) eqn:Hnl.
  - destruct (Ascii.eqb c "<") eqn:Hlt.
    + apply Ascii.eqb_eq in Hlt. subst c. discriminate Hnl.
    + simpl. rewrite Hgt, Hnl. reflexivity.
  - destruct (Ascii.eqb c "<") eqn:Hlt.
    + rewrite H. simpl. rewrite Hgt, Hnl. apply IH, H.
    + simpl. rewrite Hgt, Hnl. apply IH, H.
Qed.

Lemma sub_tags_fuel_no_tag fuel : forall s,
  String.length s <= fuel -> has_tag (Re.sub_tags_fuel fuel s) = false.
Proof.
  induction fuel as [ | fuel IH]; intros s Hlen.
  - destruct s; [reflexivity | simpl in Hlen; lia].
  - destruct s as [ | c s]; [reflexivity | ].
    simpl in Hlen. cbn [Re.sub_tags_fuel].
    destruct (Ascii.eqb c "<") eqn:Hlt.
    + destruct (Re.after_close s) as [rest | ] eqn:Hclose.
      * apply IH. apply after_close_shorter in Hclose. lia.
      * cbn [has_tag]. rewrite Hlt, (after_close_sub_tags fuel s Hclose).
        simpl. apply IH. lia.
    + cbn [has_tag]. rewrite Hlt. simpl. apply IH. lia.
Qed.

Lemma sub_tags_fuel_id fuel : forall s,
  has_tag s = false -> Re.sub_tags_fuel fuel s = s.
Proof.
  induction fuel as [ | fuel IH]; intros s H; [reflexivity | ].
  destruct s as [ | c s]; [reflexivity | ].
  cbn [has_tag] in H. apply orb_false_iff in H as [Hc Hs].
  cbn [Re.sub_tags_fuel]. destruct (Ascii.eqb c "<").
  - destruct (Re.after_close s); [discriminate Hc | ]. rewrite (IH s Hs). reflexivity.
  - rewrite (IH s Hs). reflexivity.
Qed.

Lemma sub_tags_fuel_length fuel : forall s,
  String.length (Re.sub_tags_fuel fuel s) <= String.length s.
Proof.
  induction fuel as [ | fuel IH]; intros s; [simpl; lia | ].
  destruct s as [ | c s]; [simpl; lia | ].
  cbn [Re.sub_tags_fuel]. destruct (Ascii.eqb c "<").
  - destruct (Re.after_close s) as [rest | ] eqn:Hclose.
    + apply after_close_shorter in Hclose. specialize (IH rest). simpl. lia.
    + specialize (IH s). simpl. lia.
  - specialize (IH s). simpl. lia.
Qed.

(** [has_tag] says that a ['<'] is followed, with no newline in between,
    by a ['>']. *)
Lemma after_close_iff s rest :
  Re.after_close s = Some rest <->
  exists mid,
    s = mid ++ String ">" rest
    /\ all_chars (fun c => negb (Ascii.eqb c ">") && negb (Ascii.eqb c Char.newline)) mid
       = true.
Proof.
  revert rest. induction s as [ | c s IH]; intros rest; simpl.
  - split; [discriminate | ]. intros (mid & H & _). destruct mid; discriminate.
  - destruct (Ascii.eqb_spec c ">") as [-> | Hgt].
    + split.
      * intros [= <-]. exists EmptyString. split; reflexivity.
      * intros (mid & H & Hmid). destruct mid as [ | m mid].
        -- simpl in H. injection H as <-. reflexivity.
        -- simpl in H. injection H as <- _. simpl in Hmid. discriminate Hmid.
    + destruct (Ascii.eqb_spec c Char.newline) as [-> | Hnl].
      * split; [discriminate | ]. intros (mid & H & Hmid).
        destruct mid as [ | m mid]; simpl in H; injection H as Hc Hs.
        -- discriminate Hc.
        -- subst m. cbn in Hmid. discriminate Hmid.
      * rewrite IH. split.
        -- intros (mid & -> & Hmid). exists (String c mid). split; [reflexivity | ].
           simpl. rewrite Hmid.
           destruct (Ascii.eqb_spec c ">"); [contradiction | ].
           destruct (Ascii.eqb_spec c Char.newline); [contradiction | reflexivity].
        -- intros (mid & H & Hmid). destruct mid as [ | m mid].
           ++ simpl in H. injection H as Hc _. contradiction.
           ++ simpl in H. injection H as <- ->. simpl in Hmid.
              apply andb_true_iff in Hmid as [_ Hmid]. exists mid. auto.
Qed.

Lemma after_close_some mid post :
  all_chars (fun c => negb (Ascii.eqb c Char.newline)) mid = true ->
  exists rest, Re.after_close (mid ++ String ">" post) = Some rest.
Proof.
  induction mid as [ | m mid IH]; intros H; simpl.
  - eauto.
  - simpl in H. apply andb_true_iff in H as [Hm H].
    destruct (Ascii.eqb m ">"); [eauto | ].
    apply negb_true_iff in Hm. rewrite Hm. apply IH, H.
Qed.

Lemma has_tag_iff s :
  has_tag s = true <->
  exists pre mid post,
    s = pre ++ String "<" (mid ++ String ">" post)
    /\ all_chars (fun c => negb (Ascii.eqb c Char.newline)) mid = true.
Proof.
  split.
  - induction s as [ | c s IH]; [discriminate | ].
    cbn [has_tag]. intros H. apply orb_true_iff in H as [H | H].
    + apply andb_true_iff in H as [Hc H]. apply Ascii.eqb_eq in Hc. subst c.
      destruct (Re.after_close s) as [rest | ] eqn:Hclose; [ | discriminate].
      apply after_close_iff in Hclose as (mid & -> & Hmid).
      exists EmptyString, mid, rest. split; [reflexivity | ].
      clear -Hmid. induction mid as [ | m mid IH]; [reflexivity | ].
      simpl in *. apply andb_true_iff in Hmid as [Hm Hmid].
      apply andb_true_iff in Hm as [_ Hm]. rewrite Hm, (IH Hmid). reflexivity.
    + destruct (IH H) as (pre & mid & post & -> & Hmid).
      exists (String c pre), mid, post. split; [reflexivity | exact Hmid].
  - intros (pre & mid & post & -> & Hmid). induction pre as [ | p pre IH].
    + simpl. destruct (after_close_some mid post Hmid) as [rest ->]. reflexivity.
    + change (String p pre ++ String "<" (mid ++ String ">" post))
        with (String p (pre ++ String "<" (mid ++ String ">" post))).
      cbn [has_tag]. rewrite IH. apply orb_true_r.
Qed.

(** X1. What [re.sub] of the tag pattern returns holds no complete tag any
    more (no ['<'] followed on the same line by a ['>']), is never longer
    than its argument, and is the argument itself when that holds no
    complete tag; so stripping twice is stripping once. *)
Theorem sub_tags_leaves_no_tag (s : string) :
  (forall pre mid post,
     Re.sub_tags s = pre ++ String "<" (mid ++ String ">" post) ->
     all_chars (fun c => negb (Ascii.eqb c Char.newline)) mid = false)
  /\ String.length (Re.sub_tags s) <= String.length s
  /\ (has_tag s = false -> Re.sub_tags s = s)
  /\ Re.sub_tags (Re.sub_tags s) = Re.sub_tags s.
Proof.
  assert (Hno : has_tag (Re.sub_tags s) = false)
    by (apply sub_tags_fuel_no_tag; lia).
  split.
  { intros pre mid post Hs.
    destruct (all_chars (fun c => negb (Ascii.eqb c Char.newline)) mid) eqn:Hmid;
      [ | reflexivity].
    assert (Htag : has_tag (Re.sub_tags s) = true)
      by (apply has_tag_iff; exists pre, mid, post; auto).
    congruence. }
  split; [apply sub_tags_fuel_length | ].
  split; [apply sub_tags_fuel_id | ].
  apply sub_tags_fuel_id, Hno.
Qed.

Lemma sub_tags_leaves_no_tag_witness :
  Re.sub_tags "rate < 5 and > 2" = "rate  2"
  /\ Re.sub_tags "no markup here" = "no markup here".
Proof.
  split; [reflexivity | ].
  apply (proj1 (proj2 (proj2 (sub_tags_leaves_no_tag "no markup here")))).
  reflexivity.
Defined.

(** ** The labels read from a reply *)

Lemma take_alnum_split s :
  exists tail,
    s = Re.take_alnum s ++ tail
    /\ all_chars Char.is_ascii_alnum (Re.take_alnum s) = true.
Proof.
  induction s as [ | c s (tail & Hs & Hall)]; simpl.
  - exists EmptyString. split; reflexivity.
  - destruct (Char.is_ascii_alnum c) eqn:Hc.
    + exists tail. split.
      * change (String c s = String c (Re.take_alnum s ++ tail)). f_equal. exact Hs.
      * simpl. rewrite Hc, Hall. reflexivity.
    + exists (String c s). split; reflexivity.
Qed.

(** A label that a label pattern finds is a non-empty run of ASCII
    letters and digits that stands in the reply right behind the key. *)
Lemma search_label_Some key s : forall label,
  Re.search_label key s = Some label ->
  label <> EmptyString
  /\ all_chars Char.is_ascii_alnum label = true
  /\ exists pre tail, s = pre ++ key ++ label ++ tail.
Proof.
  assert (Hat : forall t label,
    Re.label_at key t = Some label ->
    label <> EmptyString
    /\ all_chars Char.is_ascii_alnum label = true
    /\ exists tail, t = key ++ label ++ tail).
  { intros t label H. unfold Re.label_at in H.
    destruct (Str.strip_prefix key t) as [rest | ] eqn:Hp; [ | discriminate].
    apply strip_prefix_Some in Hp. subst t.
    destruct (take_alnum_split rest) as (tail & Hrest & Hall).
    destruct (Re.take_alnum rest) as [ | c run] eqn:Hrun; [discriminate | ].
    injection H as <-. split; [discriminate | ]. split; [exact Hall | ].
    exists tail. rewrite Hrest at 1. reflexivity. }
  induction s as [ | c s IH]; intros label H; simpl in H.
  - destruct (Re.label_at key EmptyString) as [run | ] eqn:Hl; [ | discriminate].
    injection H as <-. destruct (Hat _ _ Hl) as (Hne & Hall & tail & Hs).
    split; [exact Hne | ]. split; [exact Hall | ].
    exists EmptyString, tail. exact Hs.
  - destruct (Re.label_at key (String c s)) as [run | ] eqn:Hl.
    + injection H as <-. destruct (Hat _ _ Hl) as (Hne & Hall & tail & Hs).
      split; [exact Hne | ]. split; [exact Hall | ].
      exists EmptyString, tail. exact Hs.
    + destruct (IH label H) as (Hne & Hall & pre & tail & ->).
      split; [exact Hne | ]. split; [exact Hall | ].
      exists (String c pre), tail. reflexivity.
Qed.

(** The three ways the parse can end. *)
Lemma parse_labels_cases raw :
  parse_labels raw = (EmptyString, EmptyString, EmptyString)
  \/ (exists s, Re.search_label "SENTIMENT=" raw = Some s
                /\ Re.search_label "INTENT=" raw = None
                /\ parse_labels raw = (s, EmptyString, EmptyString))
  \/ (exists s i,
        Re.search_label "SENTIMENT=" raw = Some s
        /\ Re.search_label "INTENT=" raw = Some i
        /\ parse_labels raw =
             (s, i, match Re.search_rest_of_line "REASON=" raw with
                    | Some r => Str.strip r
                    | None => EmptyString
                    end)).
Proof.
  unfold parse_labels.
  destruct (Str.contains "SENTIMENT=" raw && Str.contains "INTENT=" raw); [ | auto].
  destruct (Re.search_label "SENTIMENT=" raw) as [s | ]; [ | auto].
  destruct (Re.search_label "INTENT=" raw) as [i | ]; eauto 10.
Qed.

Lemma all_chars_lstrip p s : all_chars p s = true -> all_chars p (Str.lstrip s) = true.
Proof.
  induction s as [ | c s IH]; simpl; intros H; [reflexivity | ].
  apply andb_true_iff in H as [Hc H].
  destruct (Char.is_space c); [apply IH, H | simpl; rewrite Hc, H; reflexivity].
Qed.

Lemma all_chars_rstrip p s : all_chars p s = true -> all_chars p (Str.rstrip s) = true.
Proof.
  induction s as [ | c s IH]; simpl; intros H; [reflexivity | ].
  apply andb_true_iff in H as [Hc H].
  destruct (Char.is_space c && Str.is_empty (Str.rstrip s)); [reflexivity | ].
  simpl. rewrite Hc, (IH H). reflexivity.
Qed.

Lemma take_line_no_newline s :
  all_chars (fun c => negb (Ascii.eqb c Char.newline)) (Re.take_line s) = true.
Proof.
  induction s as [ | c s IH]; simpl; [reflexivity | ].
  destruct (Ascii.eqb c Char.newline) eqn:Hc; [reflexivity | ].
  simpl. rewrite Hc, IH. reflexivity.
Qed.

Lemma search_rest_of_line_no_newline key s : forall r,
  Re.search_rest_of_line key s = Some r ->
  all_chars (fun c => negb (Ascii.eqb c Char.newline)) r = true.
Proof.
  induction s as [ | c s IH]; intros r H; simpl in H.
  - destruct (Str.strip_prefix key EmptyString); [ | discriminate].
    injection H as <-. apply take_line_no_newline.
  - destruct (Str.strip_prefix key (String c s)); [ | apply IH, H].
    injection H as <-. apply take_line_no_newline.
Qed.

Lemma rstrip_idem s : Str.rstrip (Str.rstrip s) = Str.rstrip s.
Proof.
  induction s as [ | c s IH]; simpl; [reflexivity | ].
  destruct (Char.is_space c && Str.is_empty (Str.rstrip s)) eqn:H; [reflexivity | ].
  simpl. rewrite IH, H. reflexivity.
Qed.

Lemma lstrip_unspaced s :
  match s with
  | EmptyString => True
  | String c _ => Char.is_space c = false
  end ->
  Str.lstrip s = s.
Proof. destruct s as [ | c s]; [reflexivity | ]. simpl. intros ->. reflexivity. Qed.

Lemma strip_idem s : Str.strip (Str.strip s) = Str.strip s.
Proof.
  unfold Str.strip.
  assert (Hl : Str.lstrip (Str.rstrip (Str.lstrip s)) = Str.rstrip (Str.lstrip s)).
  { apply lstrip_unspaced. induction s as [ | c s IH]; simpl; [exact I | ].
    destruct (Char.is_space c) eqn:Hc; [exact IH | ].
    simpl. rewrite Hc. simpl. exact Hc. }
  rewrite Hl. apply rstrip_idem.
Qed.

(** X2. Whatever the reply, the sentiment and intent labels are runs of
    ASCII letters and digits; the intent label is set only together with
    the sentiment label, and the reason only together with the intent
    label; the reason is a single stripped line. *)
Theorem labels_well_formed (hw : gset string) (raw : string) :
  let e := enrich hw raw in
  all_chars Char.is_ascii_alnum (gemini_sentiment e) = true
  /\ all_chars Char.is_ascii_alnum (gemini_intent e) = true
  /\ (gemini_intent e <> EmptyString -> gemini_sentiment e <> EmptyString)
  /\ (gemini_reason e <> EmptyString -> gemini_intent e <> EmptyString)
  /\ all_chars (fun c => negb (Ascii.eqb c Char.newline)) (gemini_reason e) = true
  /\ Str.strip (gemini_reason e) = gemini_reason e.
Proof.
  cbv zeta. rewrite enrich_fields. cbn [gemini_sentiment gemini_intent gemini_reason].
  destruct (parse_labels_cases raw) as [-> | [(s & Hs & _ & ->) | (s & i & Hs & Hi & ->)]];
    cbn [fst snd].
  - repeat split; try reflexivity; intros H; contradiction H; reflexivity.
  - destruct (search_label_Some _ _ _ Hs) as (_ & Hall & _).
    repeat split; try reflexivity; try exact Hall; intros H; contradiction H; reflexivity.
  - destruct (search_label_Some _ _ _ Hs) as (Hne & Hall & _).
    destruct (search_label_Some _ _ _ Hi) as (Hne' & Hall' & _).
    split; [exact Hall | ]. split; [exact Hall' | ].
    split; [intros _; exact Hne | ]. split; [intros _; exact Hne' | ].
    destruct (Re.search_rest_of_line "REASON=" raw) as [r | ] eqn:Hr.
    + split; [ | apply strip_idem].
      apply all_chars_rstrip, all_chars_lstrip.
      apply (search_rest_of_line_no_newline _ _ _ Hr).
    + split; reflexivity.
Qed.

Lemma labels_well_formed_witness :
  let e := enrich ∅ "SENTIMENT=neutral INTENT=harmless1 REASON=  routine report  " in
  gemini_reason e = "routine report" /\ gemini_intent e <> EmptyString.
Proof.
  split; [reflexivity | ].
  apply (proj1 (proj2 (proj2 (proj2 (labels_well_formed ∅
           "SENTIMENT=neutral INTENT=harmless1 REASON=  routine report  "))))).
  discriminate.
Defined.

(** X3. The harmful flag is raised only by a reply that holds the literal
    text [INTENT=harmful] (and the token [SENTIMENT=] with a label behind
    it): no other wording of the model sets it. *)
Theorem harmful_needs_literal_intent (hw : gset string) (raw : string) :
  harmful (enrich hw raw) = true ->
  Str.contains "INTENT=harmful" raw = true
  /\ Str.contains "SENTIMENT=" raw = true
  /\ gemini_sentiment (enrich hw raw) <> EmptyString.
Proof.
  rewrite enrich_fields. cbn [harmful gemini_sentiment].
  destruct (parse_labels_cases raw) as [-> | [(s & Hs & _ & ->) | (s & i & Hs & Hi & ->)]];
    cbn [fst snd]; try discriminate.
  intros H. apply startswith_iff in H as [rest ->].
  destruct (search_label_Some _ _ _ Hi) as (_ & _ & pre & tail & Hraw).
  destruct (search_label_Some _ _ _ Hs) as (Hne & _ & pre' & tail' & Hraw').
  split; [ | split; [ | exact Hne]].
  - apply contains_iff. exists pre, (rest ++ tail). rewrite Hraw. reflexivity.
  - apply contains_iff. exists pre', (s ++ tail'). exact Hraw'.
Qed.

Lemma harmful_needs_literal_intent_witness :
  Str.contains "INTENT=harmful"
    "Verdict: SENTIMENT=negative2 INTENT=harmful2 REASON=phishing" = true.
Proof.
  apply (harmful_needs_literal_intent ∅
           "Verdict: SENTIMENT=negative2 INTENT=harmful2 REASON=phishing").
  reflexivity.
Defined.

(** ** The error placeholder is read like a reply *)

Lemma strip_prefix_mismatch key : forall p s,
  mismatch key p = true -> Str.strip_prefix key (p ++ s) = None.
Proof.
  induction key as [ | a key IH]; intros p s H; [discriminate | ].
  destruct p as [ | b p]; [discriminate | ].
  simpl in H. change (String b p ++ s) with (String b (p ++ s)). simpl.
  destruct (Ascii.eqb a b); [apply IH, H | reflexivity].
Qed.

Lemma search_label_skip key p : forall s,
  clear_of key p = true -> Re.search_label key (p ++ s) = Re.search_label key s.
Proof.
  induction p as [ | c p IH]; intros s H; [reflexivity | ].
  simpl in H. apply andb_true_iff in H as [Hm H].
  change (String c p ++ s) with (String c (p ++ s)).
  cbn [Re.search_label]. unfold Re.label_at.
  change (String c (p ++ s)) with (String c p ++ s).
  rewrite (strip_prefix_mismatch key (String c p) s Hm). apply IH, H.
Qed.

Lemma take_alnum_snoc c r :
  Char.is_ascii_alnum c = false ->
  Re.take_alnum (r ++ String c EmptyString) = Re.take_alnum r.
Proof.
  intros Hc. induction r as [ | x r IH]; simpl.
  - rewrite Hc. reflexivity.
  - destruct (Char.is_ascii_alnum x); [rewrite IH; reflexivity | reflexivity].
Qed.

Lemma strip_prefix_snoc c key : forall s,
  avoids c key = true ->
  Str.strip_prefix key (s ++ String c EmptyString)
  = (fun r => r ++ String c EmptyString) <$> Str.strip_prefix key s.
Proof.
  induction key as [ | a key IH]; intros s H; [reflexivity | ].
  simpl in H. apply andb_true_iff in H as [Ha H].
  destruct s as [ | b s]; simpl.
  - apply negb_true_iff in Ha. rewrite Ha. reflexivity.
  - destruct (Ascii.eqb a b); [apply IH, H | reflexivity].
Qed.

Lemma search_label_snoc c key s :
  avoids c key = true -> Char.is_ascii_alnum c = false ->
  Re.search_label key (s ++ String c EmptyString) = Re.search_label key s.
Proof.
  intros Hk Hc.
  assert (Hat : forall t,
    Re.label_at key (t ++ String c EmptyString) = Re.label_at key t).
  { intros t. unfold Re.label_at. rewrite (strip_prefix_snoc c key t Hk).
    destruct (Str.strip_prefix key t) as [r | ]; [ | reflexivity].
    cbn. rewrite (take_alnum_snoc c r Hc). reflexivity. }
  induction s as [ | x s IH].
  - specialize (Hat EmptyString).
    change (EmptyString ++ String c EmptyString) with (String c EmptyString) in *.
    cbn [Re.search_label]. rewrite Hat.
    destruct (Re.label_at key EmptyString); reflexivity.
  - change (String x s ++ String c EmptyString)
      with (String x (s ++ String c EmptyString)).
    cbn [Re.search_label].
    change (String x (s ++ String c EmptyString))
      with (String x s ++ String c EmptyString).
    rewrite Hat, IH. reflexivity.
Qed.

Lemma placeholder_label key msg :
  clear_of key "[Gemini API error: " = true ->
  avoids "]" key = true ->
  Re.search_label key ("[Gemini API error: " ++ msg ++ "]") = Re.search_label key msg.
Proof.
  intros Hclear Hk. rewrite (search_label_skip key _ _ Hclear).
  apply search_label_snoc; [exact Hk | reflexivity].
Qed.

(** X4. When the call to the language model raises, the text of the
    exception is read as if it were the model's reply: the sentiment
    label, the intent label and the harmful flag of the article are those
    the message alone would give. *)
Theorem exception_message_is_parsed
    (generate_content : nat -> string -> reply) (n : nat)
    (text harm_words msg : string) (hw : gset string) :
  generate_content n (build_prompt text harm_words) = ReplyError msg ->
  let e := enrich hw (fetch_from_gemini_sentiment_intent generate_content n
                        text harm_words) in
  gemini_sentiment e = gemini_sentiment (enrich hw msg)
  /\ gemini_intent e = gemini_intent (enrich hw msg)
  /\ harmful e = harmful (enrich hw msg).
Proof.
  intros Hreply. unfold fetch_from_gemini_sentiment_intent. rewrite Hreply.
  cbv zeta. rewrite !enrich_fields.
  cbn [gemini_sentiment gemini_intent harmful].
  assert (Hp : fst (parse_labels ("[Gemini API error: " ++ msg ++ "]"))
               = fst (parse_labels msg)).
  { unfold parse_labels.
    rewrite placeholder_sentiment, placeholder_intent.
    rewrite (placeholder_label "SENTIMENT=" msg eq_refl eq_refl).
    rewrite (placeholder_label "INTENT=" msg eq_refl eq_refl).
    destruct (Str.contains "SENTIMENT=" msg && Str.contains "INTENT=" msg);
      [ | reflexivity].
    destruct (Re.search_label "SENTIMENT=" msg); [ | reflexivity].
    destruct (Re.search_label "INTENT=" msg); reflexivity. }
  rewrite Hp. repeat split.
Qed.

Lemma exception_message_is_parsed_witness :
  harmful (enrich ∅ (fetch_from_gemini_sentiment_intent
                       (fun _ _ => ReplyError "bad request: SENTIMENT=x INTENT=harmful1")
                       0 "Weather. Sunny" "None")) = true.
Proof.
  rewrite (proj2 (proj2 (exception_message_is_parsed
             (fun _ _ => ReplyError "bad request: SENTIMENT=x INTENT=harmful1")
             0 "Weather. Sunny" "None"
             "bad request: SENTIMENT=x INTENT=harmful1" ∅ eq_refl))).
  reflexivity.
Defined.

(** ** The lexicon scan on text below 256 *)

Lemma eq_ignorecase_lower a b :
  Char.eq_ignorecase a (Char.lower b) = Char.eq_ignorecase a b.
Proof. unfold Char.eq_ignorecase. rewrite char_lower_idem. reflexivity. Qed.

Lemma is_word_opt_lower o : Re.is_word_opt (Char.lower <$> o) = Re.is_word_opt o.
Proof. destruct o as [c | ]; [apply char_is_word_lower | reflexivity]. Qed.

Lemma head_lower s : Str.head (Str.lower s) = Char.lower <$> Str.head s.
Proof. destruct s; reflexivity. Qed.

Lemma boundary_lower a b :
  Re.boundary (Char.lower <$> a) (Char.lower <$> b) = Re.boundary a b.
Proof. unfold Re.boundary. rewrite !is_word_opt_lower. reflexivity. Qed.

Lemma literal_ignorecase_lower w : forall before text,
  Re.literal_ignorecase (Char.lower <$> before) w (Str.lower text)
  = (fun lr : option ascii * string => (Char.lower <$> fst lr, Str.lower (snd lr)))
      <$> Re.literal_ignorecase before w text.
Proof.
  induction w as [ | a w IH]; intros before text; simpl; [reflexivity | ].
  destruct text as [ | b text]; simpl; [reflexivity | ].
  rewrite eq_ignorecase_lower.
  destruct (Char.eq_ignorecase a b); [ | reflexivity].
  apply (IH (Some b) text).
Qed.

Lemma word_at_lower w before text :
  Re.word_at (Char.lower <$> before) w (Str.lower text) = Re.word_at before w text.
Proof.
  unfold Re.word_at. rewrite literal_ignorecase_lower, head_lower, boundary_lower.
  destruct (Re.literal_ignorecase before w text) as [[last rest] | ]; [ | reflexivity].
  cbn. rewrite head_lower, boundary_lower. reflexivity.
Qed.

Lemma search_word_from_lower w text : forall before,
  Re.search_word_from (Char.lower <$> before) w (Str.lower text)
  = Re.search_word_from before w text.
Proof.
  induction text as [ | c text IH]; intros before.
  - change (Str.lower EmptyString) with EmptyString.
    cbn [Re.search_word_from].
    change EmptyString with (Str.lower EmptyString) at 1.
    rewrite word_at_lower. reflexivity.
  - change (Str.lower (String c text)) with (String (Char.lower c) (Str.lower text)).
    cbn [Re.search_word_from].
    change (String (Char.lower c) (Str.lower text)) with (Str.lower (String c text)).
    rewrite word_at_lower.
    change (Re.search_word_from (Some (Char.lower c)) w (Str.lower text))
      with (Re.search_word_from (Char.lower <$> Some c) w (Str.lower text)).
    rewrite (IH (Some c)). reflexivity.
Qed.

Lemma search_word_lower w text :
  Re.search_word w (Str.lower text) = Re.search_word w text.
Proof. apply (search_word_from_lower w text None). Qed.

Lemma scan_lexicon_ext lexicon s t :
  (forall w, Re.search_word w s = Re.search_word w t) ->
  forall found, scan_lexicon lexicon s found = scan_lexicon lexicon t found.
Proof.
  intros H. induction lexicon as [ | word rest IH]; intros found; simpl;
    [reflexivity | ].
  rewrite H. apply IH.
Qed.

Lemma is_empty_lower s : Str.is_empty (Str.lower s) = Str.is_empty s.
Proof. destruct s; reflexivity. Qed.

Lemma detect_lower repr_of s t :
  Str.lower s = Str.lower t ->
  detect_harmful_words repr_of (JStr s) = detect_harmful_words repr_of (JStr t).
Proof.
  intros H. unfold detect_harmful_words, detect_found.
  assert (Hempty : Str.is_empty s = Str.is_empty t)
    by (rewrite <- (is_empty_lower s), <- (is_empty_lower t), H; reflexivity).
  cbn [Py.truthy Py.str]. rewrite Hempty.
  destruct (negb (Str.is_empty t)); [ | reflexivity].
  f_equal. apply scan_lexicon_ext. intros w.
  rewrite <- (search_word_lower w s), <- (search_word_lower w t), H. reflexivity.
Qed.

(** X5. On text of code points below 256 the scan does not see case: two
    such texts that [str.lower] makes equal give the same detected
    words. *)
Theorem detect_ignores_case (word_above : N -> bool) (s t : string) :
  Str.lower s = Str.lower t ->
  Unicode.detect_harmful_words word_above (Unicode.of_string s)
  = Unicode.detect_harmful_words word_above (Unicode.of_string t).
Proof.
  intros H. rewrite !(detect_below_256 word_above no_repr).
  apply detect_lower, H.
Qed.

Lemma detect_ignores_case_witness :
  Unicode.detect_harmful_words (fun _ => false) (Unicode.of_string "BOMB Threat in KL")
  = Unicode.detect_harmful_words (fun _ => false) (Unicode.of_string "bomb threat in kl").
Proof. apply detect_ignores_case. reflexivity. Defined.

Lemma detect_found_elem repr_of text w :
  w ∈ detect_found repr_of text ->
  w ∈ HARMFUL_KEYWORDS /\ Re.search_word w (Py.str repr_of text) = true.
Proof.
  unfold detect_found. destruct (Py.truthy text); [ | intros H; inversion H].
  rewrite scan_lexicon_elem. intros [H | (word & Hin & Hs & ->)]; [inversion H | ].
  rewrite (lexicon_lowercase word Hin). auto.
Qed.

(** The literal matches at the head of the text exactly when the text
    begins with a string equal to it up to case. *)
Lemma literal_ignorecase_iff w : forall before text last rest,
  Re.literal_ignorecase before w text = Some (last, rest) <->
  exists mid,
    text = mid ++ rest /\ Str.lower mid = Str.lower w /\ last = last_or before mid.
Proof.
  induction w as [ | a w IH]; intros before text last rest; simpl.
  - split.
    + intros [= <- <-]. exists EmptyString. repeat split.
    + intros (mid & -> & Hmid & ->). destruct mid; [reflexivity | discriminate Hmid].
  - destruct text as [ | b text].
    + split; [discriminate | ].
      intros (mid & Ht & Hmid & _). destruct mid; discriminate.
    + unfold Char.eq_ignorecase.
      destruct (Ascii.eqb_spec (Char.lower a) (Char.lower b)) as [Hab | Hab].
      * rewrite IH. split.
        -- intros (mid & -> & Hmid & ->). exists (String b mid).
           simpl. rewrite Hmid, Hab. repeat split.
        -- intros (mid & Ht & Hmid & ->). destruct mid as [ | m mid]; [discriminate | ].
           simpl in Ht, Hmid. injection Ht as <- ->. injection Hmid as _ Hmid.
           exists mid. repeat split. exact Hmid.
      * split; [discriminate | ].
        intros (mid & Ht & Hmid & _). destruct mid as [ | m mid]; [discriminate | ].
        simpl in Ht, Hmid. injection Ht as <- _. injection Hmid as Hm _.
        symmetry in Hm. contradiction.
Qed.

(** The search succeeds exactly when the text splits around an
    occurrence of the word, up to case, with a word boundary on each
    side. *)
Lemma search_word_from_iff w text : forall before,
  Re.search_word_from before w text = true <->
  exists pre mid post,
    text = pre ++ mid ++ post /\ Str.lower mid = Str.lower w
    /\ Re.boundary (last_or before pre) (Str.head (mid ++ post)) = true
    /\ Re.boundary (last_or (last_or before pre) mid) (Str.head post) = true.
Proof.
  assert (Hat : forall before text,
    Re.word_at before w text = true <->
    exists mid post,
      text = mid ++ post /\ Str.lower mid = Str.lower w
      /\ Re.boundary before (Str.head (mid ++ post)) = true
      /\ Re.boundary (last_or before mid) (Str.head post) = true).
  { intros before t. unfold Re.word_at. rewrite andb_true_iff. split.
    - intros [Hb H].
      destruct (Re.literal_ignorecase before w t) as [[last rest] | ] eqn:Hlit;
        [ | discriminate].
      apply literal_ignorecase_iff in Hlit as (mid & -> & Hmid & ->).
      exists mid, rest. auto.
    - intros (mid & post & -> & Hmid & Hb & He). split; [exact Hb | ].
      assert (Hlit : Re.literal_ignorecase before w (mid ++ post)
                     = Some (last_or before mid, post)).
      { apply literal_ignorecase_iff. exists mid. auto. }
      rewrite Hlit. exact He. }
  induction text as [ | c text IH]; intros before.
  - simpl. rewrite orb_false_r, Hat. split.
    + intros (mid & post & Ht & H). exists EmptyString, mid, post. auto.
    + intros (pre & mid & post & Ht & H).
      destruct pre; [ | discriminate]. exists mid, post. auto.
  - cbn [Re.search_word_from]. rewrite orb_true_iff, Hat, IH. split.
    + intros [(mid & post & Ht & H) | (pre & mid & post & -> & H)].
      * exists EmptyString, mid, post. auto.
      * exists (String c pre), mid, post. auto.
    + intros (pre & mid & post & Ht & H). destruct pre as [ | p pre].
      * left. exists mid, post. auto.
      * right. simpl in Ht. injection Ht as <- ->. exists pre, mid, post. auto.
Qed.

Lemma search_word_substring w s :
  Re.search_word w s = true -> occurs_as_substring w s.
Proof.
  unfold Re.search_word. rewrite search_word_from_iff.
  intros (pre & mid & post & H & Hmid & _). exists pre, mid, post. auto.
Qed.

(** X6. On text of code points below 256 the keyword rule is at least as
    wide as the free-text rule: every word [detect_harmful_words] finds
    in such a text is also found by the keyword scan when the same text
    is a keyword. *)
Theorem keyword_rule_covers_text_rule
    (word_above : N -> bool) (repr_of : json -> string) (s w : string) :
  w ∈ Unicode.detect_harmful_words word_above (Unicode.of_string s) ->
  w ∈ scan_keywords repr_of [JStr s].
Proof.
  rewrite (detect_below_256 word_above repr_of).
  unfold detect_harmful_words. rewrite elem_of_elements. intros H.
  apply detect_found_elem in H as [Hin Hs]. cbn [Py.str] in Hs.
  apply scan_keywords_iff. split; [exact Hin | ].
  exists (JStr s). split; [left | ].
  apply search_word_substring, Hs.
Qed.

Lemma keyword_rule_covers_text_rule_witness :
  "hack" ∈ scan_keywords no_repr [JStr "Hack attempt"].
Proof.
  apply (keyword_rule_covers_text_rule (fun _ => false)). vm_compute. left.
Defined.

(** ** The harmful words of an article *)

Lemma local_signals_lexicon repr_of a hw w :
  local_signals repr_of a = Ok hw -> w ∈ hw -> w ∈ HARMFUL_KEYWORDS.
Proof.
  unfold local_signals. intros H Hw.
  apply bind_Ok in H as (kws & _ & H). injection H as <-.
  rewrite elem_of_list_to_set, !elem_of_app in Hw.
  unfold detect_harmful_words in Hw. rewrite !elem_of_elements in Hw.
  destruct Hw as [Hw | [Hw | Hw]].
  - apply detect_found_elem in Hw as [Hw _]. exact Hw.
  - apply detect_found_elem in Hw as [Hw _]. exact Hw.
  - apply scan_keywords_iff in Hw as [Hw _]. exact Hw.
Qed.

Lemma lexicon_initial w :
  w ∈ HARMFUL_KEYWORDS -> exists c t, w = String c t /\ c <> "N"%char.
Proof.
  revert w.
  apply (proj1 (Forall_forall
                  (fun w => exists c t, w = String c t /\ c <> "N"%char)
                  HARMFUL_KEYWORDS)).
  repeat constructor; eexists _, _; (split; [reflexivity | discriminate]).
Qed.

Lemma join_head sep c t l : exists rest, Str.join sep (String c t :: l) = String c rest.
Proof. destruct l; simpl; eauto. Qed.

(** X7. The harmful words written to an article are lexicon terms, each
    once, at most twelve of them; and the list of words handed to the
    model is the marker [None] exactly when no word was found. *)
Theorem harmful_words_are_lexicon_terms
    (repr_of : json -> string) (generate_content : nat -> string -> reply)
    (n : nat) (a a' : article) (e : enrichment) :
  categorize_article repr_of generate_content n a = Ok a' ->
  enriched a' = Some e ->
  NoDup (harmful_words e)
  /\ (forall w, w ∈ harmful_words e -> w ∈ HARMFUL_KEYWORDS)
  /\ length (harmful_words e) <= 12
  /\ exists hw,
       local_signals repr_of a = Ok hw
       /\ (forall w, w ∈ harmful_words e <-> w ∈ hw)
       /\ (harm_words_arg hw = "None" <-> harmful_words e = []).
Proof.
  intros H He. apply categorize_article_inv in H as (_ & hw & text & Hsig & _ & He').
  rewrite He' in He. injection He as <-. rewrite enrich_fields. cbn [harmful_words].
  assert (Hlex : forall w, w ∈ elements hw -> w ∈ HARMFUL_KEYWORDS).
  { intros w Hw. apply elem_of_elements in Hw.
    apply (local_signals_lexicon _ _ _ _ Hsig Hw). }
  split; [apply NoDup_elements | ]. split; [exact Hlex | ]. split.
  { change 12 with (length HARMFUL_KEYWORDS). apply submseteq_length.
    apply NoDup_submseteq; [apply NoDup_elements | exact Hlex]. }
  exists hw. split; [exact Hsig | ]. split; [intros w; apply elem_of_elements | ].
  unfold harm_words_arg. destruct (elements hw) as [ | x l] eqn:Hel.
  - split; reflexivity.
  - split; [ | discriminate]. intros Hjoin.
    destruct (lexicon_initial x) as (c & t & -> & Hc); [apply Hlex; left | ].
    destruct (join_head ", " c t l) as [rest Hrest]. rewrite Hrest in Hjoin.
    injection Hjoin as Hc' _. contradiction.
Qed.

Lemma harmful_words_are_lexicon_terms_witness :
  match categorize_article no_repr sample_model 0 tagged_article with
  | Ok a' =>
      match enriched a' with
      | Some e => NoDup (harmful_words e) /\ length (harmful_words e) <= 12
      | None => False
      end
  | Raise _ => False
  end.
Proof.
  destruct (categorize_article no_repr sample_model 0 tagged_article)
    as [a' | ex] eqn:H; [ | vm_compute in H; discriminate H].
  destruct (enriched a') as [e | ] eqn:He.
  - destruct (harmful_words_are_lexicon_terms _ _ _ _ _ _ H He) as (Hn & _ & Hl & _).
    split; [exact Hn | exact Hl].
  - apply categorize_article_inv in H as (_ & hw & text & _ & _ & He').
    rewrite He' in He. discriminate He.
Defined.

(** ** One call per article *)

Section CategorizerCalls.

Variable repr_of : json -> string.
Variable generate_content : nat -> string -> reply.

(** The classification of an article reads the normalizer's keys only. *)
Lemma categorize_article_base n a b :
  base a = base b ->
  categorize_article repr_of generate_content n a
  = categorize_article repr_of generate_content n b.
Proof.
  destruct a, b. unfold base. simpl. intros H.
  injection H as -> -> -> -> -> -> ->. reflexivity.
Qed.

Lemma base_update h r0 a' r : base a' = base (h r0) -> base (update h r0 a' r) = base (h r).
Proof.
  intros Hb. unfold update. destruct (Nat.eqb_spec r r0) as [-> | ]; [exact Hb | reflexivity].
Qed.

Lemma categorize_loop_last articles : forall n h categorized out h',
  categorize_loop repr_of generate_content n h articles categorized = Ok (out, h') ->
  forall i r,
    articles !! i = Some r -> r ∉ drop (S i) articles ->
    categorize_article repr_of generate_content (n + i) (h r) = Ok (h' r).
Proof.
  induction articles as [ | r0 rest IH]; intros n h categorized out h' H i r Hi Hlast.
  - inversion Hi.
  - cbn [categorize_loop] in H.
    destruct (categorize_article repr_of generate_content n (h r0)) as [a' | e] eqn:Ha;
      [ | discriminate].
    cbn in H. pose proof (categorize_article_inv _ _ _ _ _ Ha) as [Hb _].
    destruct i as [ | i].
    + injection Hi as <-. cbn in Hlast.
      apply categorize_loop_inv in H as (_ & _ & Hframe & _).
      rewrite (Hframe r0 Hlast), update_same, Nat.add_0_r. exact Ha.
    + cbn in Hi, Hlast.
      pose proof (IH _ _ _ _ _ H i r Hi Hlast) as Hr.
      replace (n + S i) with (S n + i) by lia.
      rewrite <- Hr. apply categorize_article_base.
      symmetry. apply base_update, Hb.
Qed.

Lemma iter_raise v e : Py.iter v = Raise e -> e = TypeError.
Proof. destruct v; simpl; intros H; try discriminate H; injection H as <-; reflexivity. Qed.

Lemma as_str_raise v e : as_str v = Raise e -> e = TypeError.
Proof. destruct v; simpl; intros H; try discriminate H; injection H as <-; reflexivity. Qed.

Lemma categorize_article_raise n a e :
  categorize_article repr_of generate_content n a = Raise e -> e = TypeError.
Proof.
  unfold categorize_article. intros H.
  destruct (local_signals repr_of a) as [hw | e1] eqn:Hsig.
  - destruct (compose_text a) as [text | e2] eqn:Htext; [discriminate H | ].
    injection H as <-. unfold compose_text in Htext.
    destruct (as_str (Py.or (title a) (JStr EmptyString))) as [t | e3] eqn:Ht.
    + destruct (as_str (Py.or (description a) (JStr EmptyString))) as [d | e4] eqn:Hd;
        [discriminate Htext | ].
      injection Htext as <-. apply (as_str_raise _ _ Hd).
    + injection Htext as <-. apply (as_str_raise _ _ Ht).
  - injection H as <-. unfold local_signals in Hsig.
    destruct (Py.iter (Py.or (keywords a) (JArr []))) as [kws | e5] eqn:Hk;
      [discriminate Hsig | ].
    injection Hsig as <-. apply (iter_raise _ _ Hk).
Qed.

Lemma categorize_loop_outcome articles : forall n h categorized,
  match categorize_loop repr_of generate_content n h articles categorized with
  | Ok _ => forall r, r ∈ articles -> categorizable (h r) = true
  | Raise e => e = TypeError /\ exists r, r ∈ articles /\ categorizable (h r) = false
  end.
Proof.
  induction articles as [ | r0 rest IH]; intros n h categorized.
  - cbn. intros r Hr. inversion Hr.
  - cbn [categorize_loop].
    destruct (categorize_article repr_of generate_content n (h r0)) as [a' | e] eqn:Ha.
    + cbn. pose proof (categorize_article_inv _ _ _ _ _ Ha) as [Hb _].
      assert (Hr0 : categorizable (h r0) = true)
        by (apply (categorizable_iff repr_of generate_content n); eauto).
      specialize (IH (S n) (update h r0 a') (categorized ++ [r0])%list).
      destruct (categorize_loop repr_of generate_content (S n) (update h r0 a') rest
                  (categorized ++ [r0])%list) as [[out h'] | e].
      * intros r Hr. apply elem_of_cons in Hr as [-> | Hr]; [exact Hr0 | ].
        rewrite <- (categorizable_base _ _ (base_update h r0 a' r Hb)). apply IH, Hr.
      * destruct IH as (-> & r & Hr & Hc). split; [reflexivity | ].
        exists r. split; [right; exact Hr | ].
        rewrite <- (categorizable_base _ _ (base_update h r0 a' r Hb)). exact Hc.
    + cbn. split; [apply (categorize_article_raise _ _ _ Ha) | ].
      exists r0. split; [left | ].
      destruct (categorizable (h r0)) eqn:Hc; [ | reflexivity].
      apply (categorizable_iff repr_of generate_content n) in Hc as [a' Ha'].
      congruence.
Qed.

End CategorizerCalls.

(** X8. [full_categorize] classifies the article at position [i] with the
    [i]-th call to the model, from that article's own title, description
    and keywords; when a dictionary is listed more than once, what it holds
    in the end comes from its last position.  A dictionary that is not in
    the list is left as it was. *)
Theorem each_article_has_its_call
    (repr_of : json -> string) (generate_content : nat -> string -> reply)
    (h : store) (articles out : list nat) (h' : store) :
  full_categorize repr_of generate_content h articles = Ok (out, h') ->
  (forall i r,
     articles !! i = Some r -> r ∉ drop (S i) articles ->
     categorize_article repr_of generate_content i (h r) = Ok (h' r))
  /\ (forall r, r ∉ articles -> h' r = h r).
Proof.
  intros H. split.
  - intros i r Hi Hlast.
    apply (categorize_loop_last repr_of generate_content _ _ _ _ _ _ H i r Hi Hlast).
  - destruct (categorize_loop_inv repr_of generate_content articles 0 h [] out h' H)
      as (_ & _ & Hframe & _).
    exact Hframe.
Qed.

Lemma each_article_has_its_call_witness :
  match full_categorize no_repr second_call_harmful (alloc [sample_article]) [0; 0] with
  | Ok (out, h') => is_harmful (h' 0) = true
  | Raise _ => False
  end.
Proof.
  destruct (full_categorize no_repr second_call_harmful (alloc [sample_article]) [0; 0])
    as [[out h'] | ex] eqn:H; [ | vm_compute in H; discriminate H].
  destruct (each_article_has_its_call _ _ _ _ _ _ H) as [Hcall _].
  assert (Hlast : 0 ∉ drop 2 [0; 0]) by (intros Hin; inversion Hin).
  pose proof (Hcall 1 0 eq_refl Hlast) as H1.
  vm_compute in H1. injection H1 as Hh.
  unfold is_harmful. rewrite <- Hh. reflexivity.
Defined.

(** X9. [full_categorize] returns exactly when every listed article is
    categorizable: its keywords can be iterated, and its title and its
    description are strings or falsy.  Otherwise it raises a [TypeError],
    and no other exception. *)
Theorem full_categorize_returns_iff
    (repr_of : json -> string) (generate_content : nat -> string -> reply)
    (h : store) (articles : list nat) :
  ((exists out h', full_categorize repr_of generate_content h articles = Ok (out, h'))
   <-> forall r, r ∈ articles -> categorizable (h r) = true)
  /\ (forall e,
        full_categorize repr_of generate_content h articles = Raise e ->
        e = TypeError /\ exists r, r ∈ articles /\ categorizable (h r) = false).
Proof.
  pose proof (categorize_loop_outcome repr_of generate_content articles 0 h []) as Hout.
  unfold full_categorize. split; [split | ].
  - intros (out & h' & H). rewrite H in Hout. exact Hout.
  - intros Hall.
    destruct (categorize_loop_returns repr_of generate_content articles 0 h [] Hall)
      as [h' H].
    eauto.
  - intros e H. rewrite H in Hout. exact Hout.
Qed.

Lemma full_categorize_returns_iff_witness :
  full_categorize no_repr sample_model (alloc [numbered_article]) [0] = Raise TypeError.
Proof.
  destruct (full_categorize no_repr sample_model (alloc [numbered_article]) [0])
    as [[out h'] | e] eqn:H.
  - vm_compute in H. discriminate H.
  - destruct (proj2 (full_categorize_returns_iff _ _ _ _) e H) as [-> _]. reflexivity.
Defined.

(** ** The trace of the aggregator *)

Lemma info_total_app l1 l2 : info_total (l1 ++ l2)%list = info_total l1 + info_total l2.
Proof.
  induction l1 as [ | ev l1 IH]; [reflexivity | ].
  destruct ev; simpl; rewrite IH; lia.
Qed.

Lemma error_count_app l1 l2 : error_count (l1 ++ l2)%list = error_count l1 + error_count l2.
Proof.
  induction l1 as [ | ev l1 IH]; [reflexivity | ].
  destruct ev; simpl; rewrite IH; lia.
Qed.

(** The only warnings of the normalizer are the two status warnings. *)
Lemma normalize_warned repr_of api_type data w :
  normalize repr_of api_type data = Ok (Warned w) ->
  w = WarnNewsData \/ w = WarnNewsAPI.
Proof.
  unfold normalize.
  destruct (Api.has_type api_type "wikipedia").
  - intros H. apply bind_Ok in H as (q & _ & H). apply bind_Ok in H as (f & _ & H).
    apply bind_Ok in H as (items & _ & H). apply bind_Ok in H as (arts & _ & H).
    discriminate H.
  - destruct (Api.has_type api_type "newsdata"); intros H;
      apply bind_Ok in H as (status & _ & H);
      (destruct (Py.differs_from status _);
       [injection H as <-; auto | ]);
      apply bind_Ok in H as (r & _ & H); apply bind_Ok in H as (items & _ & H);
      apply bind_Ok in H as (arts & _ & H); discriminate H.
Qed.

Section AggregatorTrace.

Variable http_get : nat -> string -> list (string * json) -> response.
Variable repr_of : json -> string.
Variables (query language country : string) (max_results : Z).

(** The [INFO] line of a turn counts the articles of that turn, and a
    turn prints an [ERROR] line exactly when its request failed. *)
Lemma fetch_source_trace k api articles printed :
  fetch_source http_get repr_of query language country max_results k api
    = Ok (articles, printed) ->
  info_total printed = length articles
  /\ length printed = 2
  /\ (error_count printed =
      match call_api http_get query language country max_results k api with
      | Failed _ => 1
      | Body _ => 0
      end).
Proof.
  unfold fetch_source.
  destruct (call_api http_get query language country max_results k api) as [msg | data].
  - intros [= <- <-]. repeat split.
  - destruct (normalize repr_of (Api.type api) data) as [[arts | w] | e] eqn:Hn; simpl.
    + intros [= <- <-]. simpl. repeat split. lia.
    + intros [= <- <-]. apply normalize_warned in Hn as [-> | ->]; repeat split.
    + discriminate.
Qed.

Lemma turns_trace api_configs : forall k turns,
  traverse_from k (fetch_source http_get repr_of query language country max_results)
    api_configs = Ok turns ->
  info_total (concat (map snd turns)) = length (concat (map fst turns))
  /\ length (concat (map snd turns)) = 2 * length api_configs.
Proof.
  induction api_configs as [ | api rest IH]; intros k turns H.
  - injection H as <-. split; reflexivity.
  - cbn [traverse_from] in H.
    apply bind_Ok in H as ([articles printed] & Hsrc & H).
    apply bind_Ok in H as (turns' & Hrest & H). injection H as <-.
    apply fetch_source_trace in Hsrc as (Hinfo & Hlen & _).
    destruct (IH _ _ Hrest) as [IHinfo IHlen].
    cbn [map concat fst snd]. rewrite info_total_app, !length_app, Hinfo, IHinfo, Hlen, IHlen.
    split; [reflexivity | simpl; lia].
Qed.

(** X10. The counts of the [INFO] lines that [fetch_all_news] prints add
    up to the number of articles it returns, which is the count of its
    last line; it prints two lines per configured source before that. *)
Theorem info_lines_add_up (api_configs : list Api.config)
    (all_articles : list article) (log : list event) :
  fetch_all_news http_get repr_of query language country max_results api_configs
    = Ok (all_articles, log) ->
  info_total log = length all_articles
  /\ last log = Some (Total (length all_articles))
  /\ length log = 2 * length api_configs + 1.
Proof.
  intros H. rewrite fetch_all_news_turns in H.
  apply bind_Ok in H as (turns & Hturns & H). injection H as <- <-.
  destruct (turns_trace _ _ _ Hturns) as [Hinfo Hlen].
  rewrite info_total_app, last_snoc, length_app, Hinfo, Hlen. simpl.
  split; [lia | ]. split; [reflexivity | lia].
Qed.

(** X11. When the request of every configured source fails (a network
    error, a refused status, an undecodable body, or no [base_url]),
    [fetch_all_news] raises nothing and returns no article, with one
    [ERROR] line per source. *)
Theorem total_outage_is_empty (api_configs : list Api.config) :
  (forall i api,
     api_configs !! i = Some api ->
     exists msg, call_api http_get query language country max_results i api = Failed msg) ->
  exists log,
    fetch_all_news http_get repr_of query language country max_results api_configs
      = Ok ([], log)
    /\ error_count log = length api_configs
    /\ last log = Some (Total 0).
Proof.
  intros Hall.
  assert (Hturns : forall l k,
    (forall i api, l !! i = Some api ->
       exists msg, call_api http_get query language country max_results (k + i) api
                   = Failed msg) ->
    exists turns,
      traverse_from k (fetch_source http_get repr_of query language country max_results) l
        = Ok turns
      /\ concat (map fst turns) = []
      /\ error_count (concat (map snd turns)) = length l).
  { induction l as [ | api rest IH]; intros k Hl.
    - exists []. repeat split.
    - destruct (Hl 0 api eq_refl) as [msg Hmsg]. rewrite Nat.add_0_r in Hmsg.
      destruct (IH (S k)) as (turns & Hturns & Hnil & Herr).
      { intros i api' Hi. replace (S k + i) with (k + S i) by lia. apply (Hl (S i)), Hi. }
      eexists. cbn [traverse_from].
      rewrite (fetch_source_failed _ _ _ _ _ _ _ _ _ Hmsg). cbn.
      rewrite Hturns. cbn. split; [reflexivity | ].
      cbn [map concat fst snd]. rewrite Hnil, error_count_app, Herr.
      split; reflexivity. }
  destruct (Hturns api_configs 0 Hall) as (turns & Ht & Hnil & Herr).
  rewrite fetch_all_news_turns, Ht. cbn. rewrite Hnil.
  eexists. split; [reflexivity | ].
  rewrite error_count_app, Herr, last_snoc. simpl. split; [lia | reflexivity].
Qed.

End AggregatorTrace.

Lemma info_lines_add_up_witness :
  match fetch_all_news sample_network no_repr "scam" "en" "my" 5 API_CONFIGS with
  | Ok (all_articles, log) => info_total log = 3 /\ length log = 7
  | Raise _ => False
  end.
Proof.
  destruct (fetch_all_news sample_network no_repr "scam" "en" "my" 5 API_CONFIGS)
    as [[all_articles log] | e] eqn:H; [ | vm_compute in H; discriminate H].
  destruct (info_lines_add_up _ _ _ _ _ _ _ _ _ H) as (Hinfo & _ & Hlen).
  assert (Hn : length all_articles = 3)
    by (vm_compute in H; injection H as <- _; reflexivity).
  rewrite Hinfo, Hlen, Hn. split; reflexivity.
Defined.

Lemma total_outage_is_empty_witness :
  exists log,
    fetch_all_news network_down no_repr "scam" "en" "my" 5 API_CONFIGS = Ok ([], log)
    /\ error_count log = 3.
Proof.
  destruct (total_outage_is_empty network_down no_repr "scam" "en" "my" 5 API_CONFIGS)
    as (log & H & Herr & _).
  - intros i api Hi. exists "Connection refused".
    destruct i as [ | [ | [ | i]]]; [ | | | inversion Hi];
      injection Hi as <-; reflexivity.
  - exists log. split; [exact H | exact Herr].
Defined.

(** ** The fresh articles of the normalizer *)

Lemma or_truthy a b : Py.truthy b = true -> Py.truthy (Py.or a b) = true.
Proof. intros Hb. unfold Py.or. destruct (Py.truthy a) eqn:Ha; [exact Ha | exact Hb]. Qed.

Lemma get_Ok v key dflt x :
  Py.get v key dflt = Ok x ->
  exists fields, v = JObj fields /\ x = default dflt (Py.lookup key fields).
Proof.
  destruct v as [ | b | z | f | s | arr | fields]; try discriminate.
  intros [= <-]. exists fields. auto.
Qed.

Lemma builder_shape repr_of api_kind item a :
  builder repr_of api_kind item = Ok a ->
  enriched a = None
  /\ (Api.has_type api_kind "wikipedia" = true ->
      api_type a = "wikipedia" /\ source a = JStr "Wikipedia"
      /\ pub_date a = JStr EmptyString /\ keywords a = JArr []
      /\ (exists d, description a = JStr d /\ has_tag d = false)
      /\ exists fields,
           item = JObj fields
           /\ link a = JStr ("https://en.wikipedia.org/?curid="
                             ++ Py.str repr_of (default JNull (Py.lookup "pageid" fields))))
  /\ (Api.has_type api_kind "wikipedia" = false -> api_type a = "news")
  /\ (Api.has_type api_kind "wikipedia" = false ->
      Api.has_type api_kind "newsdata" = true -> Py.truthy (source a) = true)
  /\ (Api.has_type api_kind "wikipedia" = false ->
      Api.has_type api_kind "newsdata" = false -> keywords a = JArr []).
Proof.
  unfold builder. intros H.
  destruct (Api.has_type api_kind "wikipedia").
  - unfold wikipedia_article in H.
    apply bind_Ok in H as (t & _ & H). apply bind_Ok in H as (snippet & _ & H).
    apply bind_Ok in H as (d & Hd & H). apply bind_Ok in H as (pageid & Hp & H).
    injection H as <-. cbn.
    split; [reflexivity | ]. split; [ | repeat split; discriminate].
    intros _. repeat split.
    + exists d. split; [reflexivity | ].
      destruct snippet; try discriminate Hd. injection Hd as <-.
      apply sub_tags_fuel_no_tag. lia.
    + apply get_Ok in Hp as (fields & -> & ->). exists fields. auto.
  - destruct (Api.has_type api_kind "newsdata").
    + unfold newsdata_article in H.
      apply bind_Ok in H as (sid & _ & H). apply bind_Ok in H as (sname & _ & H).
      apply bind_Ok in H as (t & _ & H). apply bind_Ok in H as (d & _ & H).
      apply bind_Ok in H as (l & _ & H). apply bind_Ok in H as (p & _ & H).
      apply bind_Ok in H as (kw & _ & H). injection H as <-. cbn.
      split; [reflexivity | ]. split; [discriminate | ]. split; [reflexivity | ].
      split; [intros _ _; apply or_truthy; reflexivity | discriminate].
    + unfold newsapi_article in H.
      apply bind_Ok in H as (src & _ & H). apply bind_Ok in H as (nm & _ & H).
      apply bind_Ok in H as (t & _ & H). apply bind_Ok in H as (d & _ & H).
      apply bind_Ok in H as (l & _ & H). apply bind_Ok in H as (p & _ & H).
      injection H as <-. cbn.
      split; [reflexivity | ]. split; [discriminate | ]. split; [reflexivity | ].
      split; [discriminate | reflexivity].
Qed.

(** X12. An article fresh from the normalizer has none of the
    classification keys.  A Wikipedia article has the source [Wikipedia],
    the tag [wikipedia], an empty date, no keywords, a description that
    is a string without any complete markup tag, and a link made of the
    page address followed by the page id of its own record, as [str]
    prints it ([None] when the record has none); every other article has
    the tag [news]; a NewsData.io article always has a truthy source, and
    a NewsAPI article has no keywords. *)
Theorem fresh_article_shape
    (repr_of : json -> string) (api_kind : option string) (data : json)
    (articles : list article) (a : article) :
  normalize repr_of api_kind data = Ok (Articles articles) ->
  a ∈ articles ->
  enriched a = None
  /\ (Api.has_type api_kind "wikipedia" = true ->
      api_type a = "wikipedia" /\ source a = JStr "Wikipedia"
      /\ pub_date a = JStr EmptyString /\ keywords a = JArr []
      /\ (exists d, description a = JStr d /\ has_tag d = false)
      /\ exists items i fields,
           provider_items api_kind data = Ok items
           /\ items !! i = Some (JObj fields) /\ articles !! i = Some a
           /\ link a = JStr ("https://en.wikipedia.org/?curid="
                             ++ Py.str repr_of (default JNull (Py.lookup "pageid" fields)))
           /\ (forall n, Py.lookup "pageid" fields = Some (JInt n) ->
               link a = JStr ("https://en.wikipedia.org/?curid=" ++ Str.of_Z n)))
  /\ (Api.has_type api_kind "wikipedia" = false -> api_type a = "news")
  /\ (Api.has_type api_kind "wikipedia" = false ->
      Api.has_type api_kind "newsdata" = true -> Py.truthy (source a) = true)
  /\ (Api.has_type api_kind "wikipedia" = false ->
      Api.has_type api_kind "newsdata" = false -> keywords a = JArr []).
Proof.
  intros H Ha. apply normalize_articles in H as (items & Hitems & Hall & _).
  apply list_elem_of_lookup in Ha as [i Hi].
  destruct (Forall2_lookup_r _ _ _ _ _ Hall Hi) as (item & Hitem & Hb).
  destruct (builder_shape _ _ _ _ Hb) as (He & Hw & Hrest).
  split; [exact He | ]. split; [ | exact Hrest].
  intros Hkind. destruct (Hw Hkind) as (H1 & H2 & H3 & H4 & H5 & fields & -> & Hl).
  repeat (split; [assumption | ]).
  exists items, i, fields. repeat (split; [assumption | ]).
  intros n Hn. rewrite Hl, Hn. reflexivity.
Qed.

Lemma fresh_article_shape_witness :
  (exists d, description untitled_wikipedia_article = JStr d /\ has_tag d = false)
  /\ exists items i fields,
       provider_items (Some "wikipedia") untitled_wikipedia_body = Ok items
       /\ items !! i = Some (JObj fields)
       /\ [untitled_wikipedia_article] !! i = Some untitled_wikipedia_article
       /\ link untitled_wikipedia_article
          = JStr ("https://en.wikipedia.org/?curid="
                  ++ Py.str no_repr (default JNull (Py.lookup "pageid" fields)))
       /\ (forall n, Py.lookup "pageid" fields = Some (JInt n) ->
           link untitled_wikipedia_article
           = JStr ("https://en.wikipedia.org/?curid=" ++ Str.of_Z n)).
Proof.
  destruct (fresh_article_shape no_repr (Some "wikipedia") untitled_wikipedia_body
              [untitled_wikipedia_article] untitled_wikipedia_article eq_refl)
    as (_ & Hw & _); [left | ].
  destruct (Hw eq_refl) as (_ & _ & _ & _ & Hd & Hl). split; [exact Hd | exact Hl].
Defined.

(** X13. A body that succeeds but lacks the list of records (no [query]
    or no [search] for Wikipedia, no [results] for NewsData.io, no
    [articles] for NewsAPI, the status being right) is taken as an empty
    answer: the turn adds no article and prints an [INFO] line with the
    count 0, not a warning or an error. *)
Theorem missing_list_is_empty_answer
    (http_get : nat -> string -> list (string * json) -> response)
    (repr_of : json -> string) (query language country : string) (max_results : Z)
    (k : nat) (api : Api.config) (fields : list (string * json)) :
  call_api http_get query language country max_results k api = Body (JObj fields) ->
  (Api.has_type (Api.type api) "wikipedia" = true
   /\ (Py.lookup "query" fields = None
       \/ exists q, Py.lookup "query" fields = Some (JObj q)
                    /\ Py.lookup "search" q = None))
  \/ (Api.has_type (Api.type api) "wikipedia" = false
      /\ Api.has_type (Api.type api) "newsdata" = true
      /\ Py.lookup "status" fields = Some (JStr "success")
      /\ Py.lookup "results" fields = None)
  \/ (Api.has_type (Api.type api) "wikipedia" = false
      /\ Api.has_type (Api.type api) "newsdata" = false
      /\ Py.lookup "status" fields = Some (JStr "ok")
      /\ Py.lookup "articles" fields = None) ->
  fetch_source http_get repr_of query language country max_results k api
  = Ok ([], [Fetching (default "unknown" (Api.name api));
             Info (default "API" (Api.name api)) 0]).
Proof.
  intros Hcall Hcase. unfold fetch_source. rewrite Hcall. unfold normalize.
  destruct Hcase as [(Hw & [Hq | (q & Hq & Hs)]) | [(Hw & Hn & Hst & Hr) | (Hw & Hn & Hst & Hr)]].
  - rewrite Hw. cbn. rewrite Hq. reflexivity.
  - rewrite Hw. cbn. rewrite Hq. cbn. rewrite Hs. reflexivity.
  - rewrite Hw, Hn. cbn. rewrite Hst, Hr. reflexivity.
  - rewrite Hw, Hn. cbn. rewrite Hst, Hr. reflexivity.
Qed.

Lemma missing_list_is_empty_answer_witness :
  fetch_source wikipedia_error no_repr "scam" "en" "my" 5 2 wikipedia_config
  = Ok ([], [Fetching "Wikipedia"; Info "Wikipedia" 0]).
Proof.
  apply (missing_list_is_empty_answer wikipedia_error no_repr "scam" "en" "my" 5 2
           wikipedia_config wikipedia_error_body eq_refl).
  left. split; [reflexivity | left; reflexivity].
Defined.

(** ** The report *)

Lemma harmful_key_Some a b :
  harmful_key a = Some b -> is_Some (enriched a) /\ is_harmful a = b.
Proof.
  unfold harmful_key, is_harmful. destruct (enriched a) as [e | ]; [ | discriminate].
  intros [= <-]. split; [eauto | reflexivity].
Qed.

Lemma harmful_key_None a : harmful_key a = None -> enriched a = None.
Proof. unfold harmful_key. destruct (enriched a); [discriminate | reflexivity]. Qed.

(** The harmful-only section lists the harmful articles of the whole
    list, in order. *)
Lemma print_harmful_Some l : forall printed,
  print_harmful l = Some printed ->
  printed = map DangerLines (List.filter is_harmful l)
  /\ forall a, a ∈ l -> is_Some (enriched a).
Proof.
  induction l as [ | a l IH]; intros printed H.
  - injection H as <-. split; [reflexivity | intros a Ha; inversion Ha].
  - cbn [print_harmful] in H.
    destruct (harmful_key a) as [flag | ] eqn:Hk; [ | discriminate].
    destruct (print_harmful l) as [rest | ]; [ | discriminate].
    cbn in H. injection H as <-.
    destruct (IH rest eq_refl) as [-> Hall].
    apply harmful_key_Some in Hk as [He Hf].
    split.
    + cbn [List.filter]. rewrite Hf. destruct flag; reflexivity.
    + intros a' Ha'. apply elem_of_cons in Ha' as [-> | Ha']; [exact He | apply Hall, Ha'].
Qed.

Lemma print_harmful_None l :
  print_harmful l = None -> exists a, a ∈ l /\ enriched a = None.
Proof.
  induction l as [ | a l IH]; [discriminate | ].
  cbn [print_harmful].
  destruct (harmful_key a) as [flag | ] eqn:Hk.
  - destruct (print_harmful l) as [rest | ]; [discriminate | ].
    intros _. destruct (IH eq_refl) as (a' & Ha' & He). exists a'. split; [right | ]; auto.
  - intros _. exists a. split; [left | apply harmful_key_None, Hk].
Qed.

(** The first section prints, for the article at position [j], the hit
    number [i + j + 1] and its flag. *)
Lemma print_hits_Some l : forall i printed,
  print_hits i l = Some printed ->
  forall ln,
    ln ∈ printed <->
    exists j a,
      l !! j = Some a
      /\ (ln = HitLines (S (i + j)) a
          \/ ln = (if is_harmful a then DangerFlag else OkFlag)).
Proof.
  induction l as [ | a l IH]; intros i printed H ln.
  - injection H as <-. split; [intros Hin; inversion Hin | ].
    intros (j & a & Hj & _). inversion Hj.
  - cbn [print_hits] in H.
    destruct (harmful_key a) as [flag | ] eqn:Hk; [ | discriminate].
    destruct (print_hits (S i) l) as [rest | ] eqn:Hrest; [ | discriminate].
    cbn in H. injection H as <-.
    apply harmful_key_Some in Hk as [_ <-].
    rewrite !elem_of_cons, (IH (S i) rest Hrest ln). split.
    + intros [-> | [-> | (j & a' & Hj & Hln)]].
      * exists 0, a. rewrite Nat.add_0_r. auto.
      * exists 0, a. auto.
      * exists (S j), a'. replace (i + S j) with (S i + j) by lia. auto.
    + intros ([ | j] & a' & Hj & Hln).
      * injection Hj as <-. rewrite Nat.add_0_r in Hln. destruct Hln; auto.
      * right. right. exists j, a'. replace (S i + j) with (i + S j) by lia. auto.
Qed.

Lemma print_hits_defined l : forall i,
  (forall a, a ∈ l -> is_Some (enriched a)) -> is_Some (print_hits i l).
Proof.
  induction l as [ | a l IH]; intros i Hall; [eauto | ].
  cbn [print_hits]. unfold harmful_key.
  destruct (Hall a) as [e ->]; [left | ]. cbn.
  destruct (IH (S i)) as [rest ->]; [intros a' Ha'; apply Hall; right; exact Ha' | ].
  cbn. eauto.
Qed.

Lemma print_harmful_defined l :
  (forall a, a ∈ l -> is_Some (enriched a)) -> is_Some (print_harmful l).
Proof.
  intros Hall. destruct (print_harmful l) eqn:H; [eauto | ].
  apply print_harmful_None in H as (a & Ha & He).
  destruct (Hall a Ha) as [e He']. congruence.
Qed.

Lemma report_defined all_hits :
  (forall a, a ∈ all_hits -> is_Some (enriched a)) -> is_Some (report all_hits).
Proof.
  intros Hall. unfold report.
  destruct (print_harmful_defined all_hits Hall) as [second ->].
  destruct all_hits as [ | a l]; [cbn; eauto | ].
  destruct (print_hits_defined (take 10 (a :: l)) 0) as [printed ->]; [ | cbn; eauto].
  intros a' Ha'. apply Hall. apply list_elem_of_lookup in Ha' as [j Hj].
  apply lookup_take_Some in Hj as [Hj _]. apply list_elem_of_lookup. eauto.
Qed.

(** X14. The report is printed without a [KeyError] exactly when every
    article of the list has been classified. *)
Theorem report_needs_classification (all_hits : list article) :
  is_Some (report all_hits) <-> forall a, a ∈ all_hits -> is_Some (enriched a).
Proof.
  split; [ | apply report_defined].
  unfold report. intros [lines H].
  destruct (print_harmful all_hits) as [second | ] eqn:Hsecond.
  - apply print_harmful_Some in Hsecond as [_ Hall]. exact Hall.
  - destruct all_hits as [ | a l]; [discriminate Hsecond | ].
    destruct (print_hits 0 (take 10 (a :: l))); discriminate H.
Qed.

Lemma report_needs_classification_witness :
  report [sample_article] = None.
Proof.
  destruct (report [sample_article]) as [lines | ] eqn:H; [ | reflexivity].
  destruct (proj1 (report_needs_classification [sample_article]) (ex_intro _ lines H)
              sample_article) as [e He]; [left | discriminate He].
Defined.

(** Closes a goal from the membership of a line in a list of lines of
    other kinds. *)
Ltac absent_line Hin :=
  repeat (apply elem_of_cons in Hin as [Hin | Hin]; [discriminate Hin | ]);
  inversion Hin.

(** X15. In a printed report the first section shows the first ten
    articles only, numbered from 1, while the harmful-only section shows
    every harmful article of the whole list; the results file receives
    the whole list, and is written exactly when the list is not empty;
    the empty list is reported as having no valid article. *)
Theorem report_contents (all_hits : list article) (lines : list line) :
  report all_hits = Some lines ->
  (forall k a,
     HitLines k a ∈ lines <-> 1 <= k <= 10 /\ all_hits !! (k - 1) = Some a)
  /\ (forall a, DangerLines a ∈ lines <-> a ∈ all_hits /\ is_harmful a = true)
  /\ (forall saved, Dumped saved ∈ lines <-> saved = all_hits /\ all_hits <> [])
  /\ (forall count,
        SavedLine count ∈ lines <-> count = length all_hits /\ all_hits <> [])
  /\ (NoValidArticles ∈ lines <-> all_hits = []).
Proof.
  intros H.
  assert (Hsecond : exists second,
            print_harmful all_hits = Some second
            /\ report all_hits
               = (first ←
                    match all_hits with
                    | [] => Some [NoValidArticles]
                    | _ =>
                        printed ← print_hits 0 (take 10 all_hits);
                        Some (printed ++ [Dumped all_hits; SavedLine (length all_hits)])%list
                    end;
                  Some (ReportHeader :: first ++ HarmfulHeader :: second)%list)).
  { unfold report. destruct (print_harmful all_hits) as [second | ] eqn:Hsecond.
    - exists second. split; [reflexivity | ].
      destruct all_hits; [reflexivity | ].
      destruct (print_hits 0 (take 10 (a :: all_hits))); reflexivity.
    - unfold report in H. rewrite Hsecond in H.
      destruct all_hits as [ | a l]; [discriminate Hsecond | ].
      destruct (print_hits 0 (take 10 (a :: l))); discriminate H. }
  destruct Hsecond as (second & Hsecond & Hreport). rewrite Hreport in H. clear Hreport.
  apply print_harmful_Some in Hsecond as [-> _].
  assert (Hdanger : forall a,
    DangerLines a ∈ map DangerLines (List.filter is_harmful all_hits)
    <-> a ∈ all_hits /\ is_harmful a = true).
  { intros a. rewrite list_elem_of_In, in_map_iff. split.
    - intros (a' & [= ->] & Ha). apply filter_In in Ha as [Ha Hh].
      split; [apply list_elem_of_In, Ha | exact Hh].
    - intros [Ha Hh]. exists a. split; [reflexivity | ].
      apply filter_In. split; [apply list_elem_of_In, Ha | exact Hh]. }
  assert (Hother : forall ln,
    (forall a, ln <> DangerLines a) ->
    ~ ln ∈ map DangerLines (List.filter is_harmful all_hits)).
  { intros ln Hln Hin. apply list_elem_of_In, in_map_iff in Hin as (a & <- & _).
    apply (Hln a). reflexivity. }
  destruct (decide (all_hits = [])) as [-> | Hne].
  - cbn in H. injection H as <-. cbn [map List.filter app].
    split; [ | split; [ | split; [ | split]]].
    + intros k a. split; [intros Hin; absent_line Hin | intros [_ Hl]; inversion Hl].
    + intros a. split; [intros Hin; absent_line Hin | intros [Hl _]; inversion Hl].
    + intros saved. split; [intros Hin; absent_line Hin | ].
      intros [_ Hl]. contradiction Hl. reflexivity.
    + intros count. split; [intros Hin; absent_line Hin | ].
      intros [_ Hl]. contradiction Hl. reflexivity.
    + split; [reflexivity | intros _; right; left].
  - assert (Hfirst : match all_hits with
                     | [] => Some [NoValidArticles]
                     | _ =>
                         printed ← print_hits 0 (take 10 all_hits);
                         Some (printed ++ [Dumped all_hits; SavedLine (length all_hits)])%list
                     end
                     = (printed ← print_hits 0 (take 10 all_hits);
                        Some (printed ++ [Dumped all_hits; SavedLine (length all_hits)])%list))
      by (destruct all_hits; [contradiction | reflexivity]).
    rewrite Hfirst in H. clear Hfirst.
    destruct (print_hits 0 (take 10 all_hits)) as [printed | ] eqn:Hp; [ | discriminate H].
    cbn [mbind option_bind] in H. injection H as <-.
    pose proof (print_hits_Some _ _ _ Hp) as Hhits.
    split; [ | split; [ | split; [ | split]]].
    + intros k a. rewrite elem_of_cons, !elem_of_app, elem_of_cons, !elem_of_cons.
      rewrite (Hhits (HitLines k a)). split.
      * intros [Hd | [[(j & a' & Hj & Hln) | [Hd | [Hd | Hd]]] | [Hd | Hd]]];
          try discriminate Hd; try (inversion Hd; fail).
        -- apply lookup_take_Some in Hj as [Hj Hlt].
           destruct Hln as [[= -> ->] | Hln]; [ | destruct (is_harmful a'); discriminate Hln].
           simpl. rewrite Nat.sub_0_r. split; [lia | exact Hj].
        -- exfalso. apply (Hother (HitLines k a)); [discriminate | exact Hd].
      * intros [Hk Hj]. right. left. left. exists (k - 1), a. split.
        -- apply lookup_take_Some. split; [exact Hj | lia].
        -- left. f_equal. lia.
    + intros a. rewrite elem_of_cons, !elem_of_app, elem_of_cons, !elem_of_cons.
      rewrite (Hhits (DangerLines a)), Hdanger. split.
      * intros [Hd | [[(j & a' & _ & Hln) | [Hd | [Hd | Hd]]] | [Hd | Hd]]];
          try discriminate Hd; try (inversion Hd; fail); try exact Hd.
        destruct Hln as [Hln | Hln]; [discriminate Hln | ].
        destruct (is_harmful a'); discriminate Hln.
      * intros Hd. right. right. right. exact Hd.
    + intros saved. rewrite elem_of_cons, !elem_of_app, elem_of_cons, !elem_of_cons.
      rewrite (Hhits (Dumped saved)). split.
      * intros [Hd | [[(j & a' & _ & Hln) | [Hd | [Hd | Hd]]] | [Hd | Hd]]];
          try discriminate Hd; try (inversion Hd; fail).
        -- destruct Hln as [Hln | Hln]; [discriminate Hln | ].
           destruct (is_harmful a'); discriminate Hln.
        -- injection Hd as ->. split; [reflexivity | exact Hne].
        -- exfalso. apply (Hother (Dumped saved)); [discriminate | exact Hd].
      * intros [-> _]. right. left. right. left. reflexivity.
    + intros count. rewrite elem_of_cons, !elem_of_app, elem_of_cons, !elem_of_cons.
      rewrite (Hhits (SavedLine count)). split.
      * intros [Hd | [[(j & a' & _ & Hln) | [Hd | [Hd | Hd]]] | [Hd | Hd]]];
          try discriminate Hd; try (inversion Hd; fail).
        -- destruct Hln as [Hln | Hln]; [discriminate Hln | ].
           destruct (is_harmful a'); discriminate Hln.
        -- injection Hd as ->. split; [reflexivity | exact Hne].
        -- exfalso. apply (Hother (SavedLine count)); [discriminate | exact Hd].
      * intros [-> _]. right. left. right. right. left. reflexivity.
    + rewrite elem_of_cons, !elem_of_app, elem_of_cons, !elem_of_cons.
      rewrite (Hhits NoValidArticles). split; [ | intros Hd; contradiction].
      intros [Hd | [[(j & a' & _ & Hln) | [Hd | [Hd | Hd]]] | [Hd | Hd]]];
        try discriminate Hd; try (inversion Hd; fail).
      * destruct Hln as [Hln | Hln]; [discriminate Hln | ].
        destruct (is_harmful a'); discriminate Hln.
      * exfalso. apply (Hother NoValidArticles); [discriminate | exact Hd].
Qed.

Lemma report_contents_witness :
  match report eleven_hits with
  | Some lines =>
      DangerLines (classified true) ∈ lines
      /\ ~ HitLines 11 (classified true) ∈ lines
      /\ Dumped eleven_hits ∈ lines
  | None => False
  end.
Proof.
  destruct (report eleven_hits) as [lines | ] eqn:H; [ | vm_compute in H; discriminate H].
  destruct (report_contents eleven_hits lines H) as (Hhit & Hdanger & Hdump & _).
  split; [ | split].
  - apply Hdanger. split; [ | reflexivity].
    apply list_elem_of_lookup. exists 10. reflexivity.
  - intros Hin. apply Hhit in Hin as [Hk _]. lia.
  - apply Hdump. split; [reflexivity | discriminate].
Defined.

(** ** The main program *)

Lemma alloc_elem (l : list article) r : r < length l -> alloc l r ∈ l.
Proof.
  intros Hr. unfold alloc. apply list_elem_of_In, nth_In. exact Hr.
Qed.

Lemma elem_alloc (l : list article) a :
  a ∈ l -> exists r, r ∈ seq 0 (length l) /\ alloc l r = a.
Proof.
  intros Ha. apply list_elem_of_In in Ha.
  destruct (In_nth l a blank Ha) as (r & Hr & Hnth).
  exists r. split; [ | exact Hnth].
  apply list_elem_of_In, in_seq. lia.
Qed.

Section MainFacts.

Variable http_get : nat -> string -> list (string * json) -> response.
Variable repr_of : json -> string.
Variable generate_content : nat -> string -> reply.
Variables (query language country : string) (max_results : Z).

(** X16. The main program comes to its report exactly when the fetch
    returns and every fetched article is categorizable; an exception of
    the fetch goes through unchanged, and the classification can only
    add a [TypeError].  The sequence it ends with is as long as the
    fetched one, and its report is printed without a [KeyError]. *)
Theorem main_outcome (api_configs : list Api.config) :
  (forall all_hits log,
     fetch_all_news http_get repr_of query language country max_results api_configs
       = Ok (all_hits, log) ->
     ((exists result,
         main http_get repr_of generate_content query language country max_results
           api_configs = Ok result)
      <-> forall a, a ∈ all_hits -> categorizable a = true)
     /\ (forall result,
           main http_get repr_of generate_content query language country max_results
             api_configs = Ok result ->
           length result = length all_hits /\ is_Some (report result))
     /\ (forall e,
           main http_get repr_of generate_content query language country max_results
             api_configs = Raise e -> e = TypeError))
  /\ (forall e,
        fetch_all_news http_get repr_of query language country max_results api_configs
          = Raise e ->
        main http_get repr_of generate_content query language country max_results
          api_configs = Raise e).
Proof.
  split.
  - intros all_hits log Hfetch. unfold main. rewrite Hfetch. cbn [mbind res_bind].
    unfold full_categorize.
    pose proof (categorize_loop_outcome repr_of generate_content
                  (seq 0 (length all_hits)) 0 (alloc all_hits) []) as Hout.
    destruct (categorize_loop repr_of generate_content 0 (alloc all_hits)
                (seq 0 (length all_hits)) []) as [[categorized h] | e] eqn:Hloop.
    + cbn [mbind res_bind].
      destruct (categorize_loop_inv repr_of generate_content _ _ _ _ _ _ Hloop)
        as (Hcat & _ & _ & Hen).
      simpl in Hcat. subst categorized.
      split; [ | split].
      * split; [ | eauto]. intros _ a Ha.
        destruct (elem_alloc all_hits a Ha) as (r & Hr & <-). apply Hout, Hr.
      * intros result [= <-]. rewrite length_map, length_seq. split; [reflexivity | ].
        apply report_defined. intros a Ha.
        apply list_elem_of_In, in_map_iff in Ha as (r & <- & Hr).
        apply list_elem_of_In in Hr. destruct (Hen r Hr) as (hw & raw & ->). eauto.
      * discriminate.
    + cbn [mbind res_bind]. destruct Hout as (-> & r & Hr & Hc).
      split; [ | split].
      * split; [intros [result Hres]; discriminate Hres | ].
        intros Hall. exfalso.
        apply list_elem_of_In, in_seq in Hr.
        rewrite (Hall (alloc all_hits r)) in Hc; [discriminate Hc | ].
        apply alloc_elem. lia.
      * discriminate.
      * intros e [= <-]. reflexivity.
  - intros e Hfetch. unfold main. rewrite Hfetch. reflexivity.
Qed.

End MainFacts.

Lemma main_outcome_witness :
  exists result,
    main sample_network no_repr sample_model "scam" "en" "my" 5 API_CONFIGS = Ok result
    /\ length result = 3.
Proof.
  destruct (fetch_all_news sample_network no_repr "scam" "en" "my" 5 API_CONFIGS)
    as [[all_hits log] | e] eqn:Hfetch; [ | vm_compute in Hfetch; discriminate Hfetch].
  destruct (proj1 (main_outcome sample_network no_repr sample_model "scam" "en" "my" 5
                     API_CONFIGS) all_hits log Hfetch) as (Hiff & Hlen & _).
  assert (Hhits : all_hits = sample_expected)
    by (vm_compute in Hfetch; injection Hfetch as <- _; reflexivity).
  destruct (proj2 Hiff) as [result Hres].
  { intros a Ha. rewrite Hhits in Ha.
    repeat (apply elem_of_cons in Ha as [-> | Ha]; [reflexivity | ]). inversion Ha. }
  exists result. split; [exact Hres | ].
  destruct (Hlen result Hres) as [-> _]. rewrite Hhits. reflexivity.
Defined.

(** ** When the aggregator raises *)

Lemma traverse_from_Raise {A B : Type} (f : nat -> A -> res B) (l : list A) :
  forall k e,
    traverse_from k f l = Raise e ->
    exists i x,
      l !! i = Some x /\ f (k + i) x = Raise e
      /\ forall j y, j < i -> l !! j = Some y -> exists r, f (k + j) y = Ok r.
Proof.
  induction l as [ | x0 l IH]; intros k e H; [discriminate H | ].
  cbn [traverse_from] in H.
  destruct (f k x0) as [y0 | e0] eqn:Hx0.
  - cbn [mbind res_bind] in H.
    destruct (traverse_from (S k) f l) as [ys | e1] eqn:Hrest; [discriminate H | ].
    injection H as <-.
    destruct (IH _ _ Hrest) as (i & x & Hi & Hf & Hbefore).
    exists (S i), x. split; [exact Hi | ].
    split; [replace (k + S i) with (S k + i) by lia; exact Hf | ].
    intros [ | j] y Hj Hy.
    + injection Hy as <-. rewrite Nat.add_0_r. eauto.
    + replace (k + S j) with (S k + j) by lia. apply (Hbefore j y); [lia | exact Hy].
  - injection H as <-. exists 0, x0. rewrite Nat.add_0_r.
    split; [reflexivity | ]. split; [exact Hx0 | ]. intros j y Hj. lia.
Qed.

Lemma normalize_not_object repr_of api_kind data :
  (forall fields, data <> JObj fields) ->
  normalize repr_of api_kind data = Raise AttributeError.
Proof.
  intros H. unfold normalize.
  destruct data as [ | b | z | f | s | arr | fields];
    try (destruct (Api.has_type api_kind "wikipedia");
         [ | destruct (Api.has_type api_kind "newsdata")]; reflexivity).
  contradiction (H fields). reflexivity.
Qed.

(** X17. [fetch_all_news] is all or nothing.  It raises only because of a
    source whose request succeeded and whose body the normalizer could
    not read: the exception is the one of the first such source, every
    source before it completed its turn, and the articles collected so
    far are lost.  A failed request never raises, and a body that is not
    an object always does, with an [AttributeError], whatever the API
    type. *)
Theorem fetch_raises_on_first_unreadable_body
    (http_get : nat -> string -> list (string * json) -> response)
    (repr_of : json -> string) (query language country : string) (max_results : Z)
    (api_configs : list Api.config) (e : exn) :
  fetch_all_news http_get repr_of query language country max_results api_configs
    = Raise e ->
  (exists i api data,
     api_configs !! i = Some api
     /\ call_api http_get query language country max_results i api = Body data
     /\ normalize repr_of (Api.type api) data = Raise e
     /\ forall j api',
          j < i -> api_configs !! j = Some api' ->
          exists turn,
            fetch_source http_get repr_of query language country max_results j api'
              = Ok turn)
  /\ (forall api_kind data,
        (forall fields, data <> JObj fields) ->
        normalize repr_of api_kind data = Raise AttributeError).
Proof.
  intros H. split; [ | intros api_kind data; apply normalize_not_object].
  rewrite fetch_all_news_turns in H.
  destruct (traverse_from 0
              (fetch_source http_get repr_of query language country max_results)
              api_configs) as [turns | e0] eqn:Hturns; [discriminate H | ].
  injection H as <-.
  apply traverse_from_Raise in Hturns as (i & api & Hi & Hsrc & Hbefore).
  cbn [Nat.add] in Hsrc. unfold fetch_source in Hsrc.
  destruct (call_api http_get query language country max_results i api)
    as [msg | data] eqn:Hcall; [discriminate Hsrc | ].
  exists i, api, data. split; [exact Hi | ]. split; [exact Hcall | ].
  split.
  - destruct (normalize repr_of (Api.type api) data) as [[arts | w] | e1];
      [discriminate Hsrc | discriminate Hsrc | ].
    cbn [mbind res_bind] in Hsrc. injection Hsrc as <-. reflexivity.
  - intros j api' Hj Hapi'. apply (Hbefore j api' Hj Hapi').
Qed.

Lemma fetch_raises_on_first_unreadable_body_witness :
  exists i api data,
    API_CONFIGS !! i = Some api
    /\ call_api newsdata_down_list_body "scam" "en" "my" 5 i api = Body data
    /\ normalize no_repr (Api.type api) data = Raise AttributeError.
Proof.
  destruct (fetch_raises_on_first_unreadable_body newsdata_down_list_body no_repr
              "scam" "en" "my" 5 API_CONFIGS AttributeError eq_refl)
    as [(i & api & data & Hi & Hcall & Hn & _) _].
  exists i, api, data. auto.
Defined.
